(** * Request dispatch core of the pub/sub client: the Networking class

    A shallow embedding of [src/core/components/networking.js]: the origin
    rotator ([nextOrigin]), the parameter composer ([prepareParams]), the
    per-operation request builders and the response handler
    ([_abstractedXDR]), with the properties the specification states
    about them. *)

From Stdlib Require Import ZArith List String Ascii Bool Lia DecimalString.
From stdpp Require Import base gmap strings fin_maps.

Local Open Scope string_scope.
Local Open Scope Z_scope.
#[local] Set Warnings "-register-all".

(** ** JavaScript values and strings *)

(** The values that flow through parameter mappings, URL arrays and
    callbacks. Numbers that occur here (counters, timetokens, timeouts, the
    literal [0] in URLs) are integers. *)
Inductive JsVal : Type :=
| JUndefined
| JNull
| JBool (b : bool)
| JNum (n : Z)
| JStr (s : string)
| JArr (items : list JsVal)
| JObj (fields : list (string * JsVal)).

(** [ToBoolean]: what [if (v)] and [!v] test. *)
Definition truthy (v : JsVal) : bool :=
  match v with
  | JUndefined | JNull => false
  | JBool b => b
  | JNum n => negb (n =? 0)
  | JStr s => negb (String.eqb s "")
  | JArr _ | JObj _ => true
  end.

(** A keychain or config accessor yields a string or the absent indicator. *)
Definition of_key (k : option string) : JsVal :=
  match k with
  | Some s => JStr s
  | None => JUndefined
  end.

(** [Number.prototype.toString] on an integer. *)
Definition toString (n : Z) : string := NilZero.string_of_int (Z.to_int n).

(** [s.indexOf(pat)]: position of the first occurrence of [pat], or [-1]. *)
Fixpoint indexOf_from (i : Z) (s pat : string) : Z :=
  if String.prefix pat s then i
  else match s with
       | EmptyString => -1
       | String _ rest => indexOf_from (i + 1) rest pat
       end.

Definition indexOf (s pat : string) : Z := indexOf_from 0 s pat.

Fixpoint string_drop (n : nat) (s : string) : string :=
  match n, s with
  | O, _ => s
  | S _, EmptyString => EmptyString
  | S m, String _ rest => string_drop m rest
  end.

(** [s.replace(pat, rep)] with a string pattern: only the first occurrence
    is replaced. (The replacements built by this class, ['ps'] followed by
    a decimal counter or a hexadecimal run, contain no [$] patterns.) *)
Fixpoint replace (s pat rep : string) : string :=
  if String.prefix pat s then rep +:+ string_drop (String.length pat) s
  else match s with
       | EmptyString => EmptyString
       | String c rest => String c (replace rest pat rep)
       end.

(** [s.replace(/c/g, d)] for a one-character pattern [c]: every occurrence
    is replaced. *)
Fixpoint replace_all (c d : ascii) (s : string) : string :=
  match s with
  | EmptyString => EmptyString
  | String x rest =>
      String (if Ascii.eqb x c then d else x) (replace_all c d rest)
  end.

(** [s.split(sep)[0]] for a one-character separator. *)
Fixpoint split_head (sep : ascii) (s : string) : string :=
  match s with
  | EmptyString => EmptyString
  | String x rest =>
      if Ascii.eqb x sep then EmptyString else String x (split_head sep rest)
  end.

Fixpoint concat_with (sep : string) (parts : list string) : string :=
  match parts with
  | [] => ""
  | [p] => p
  | p :: rest => p +:+ sep +:+ concat_with sep rest
  end.

(** How [Array.prototype.join] renders an element: [undefined] and [null]
    as the empty string, a nested array joined by commas. *)
Fixpoint render (v : JsVal) : string :=
  match v with
  | JStr s => s
  | JNum n => toString n
  | JBool true => "true"
  | JBool false => "false"
  | JUndefined | JNull => ""
  | JArr items => concat_with "," (map render items)
  | JObj _ => "[object Object]"
  end.

(** [parts.join(sep)] *)
Definition join (sep : string) (parts : list JsVal) : string :=
  concat_with sep (map render parts).

(** [String(v)] as used by [+] on strings. *)
Definition to_str (v : JsVal) : string :=
  match v with
  | JUndefined => "undefined"
  | JNull => "null"
  | other => render other
  end.

(** ** Data model *)

(** A parameter mapping: a plain, extensible JavaScript object used as a
    map from names to values. The map holds the object's own properties;
    its prototype is [Object.prototype], as for every object literal. *)
Abbreviation Params := (gmap string JsVal).

(** The properties every plain object inherits from [Object.prototype]. *)
Definition Object_prototype : list string :=
  ["constructor"; "hasOwnProperty"; "isPrototypeOf"; "propertyIsEnumerable";
   "toLocaleString"; "toString"; "valueOf"; "__proto__";
   "__defineGetter__"; "__defineSetter__"; "__lookupGetter__";
   "__lookupSetter__"].

Definition inherited (key : string) : bool :=
  existsb (String.eqb key) Object_prototype.
Arguments inherited : simpl never.

(** [key in data]: an own property, or an inherited one. *)
Definition has_property (data : Params) (key : string) : bool :=
  match data !! key with
  | Some _ => true
  | None => inherited key
  end.

(** The Keychain collaborator: each accessor returns a value or the
    absent indicator. *)
Record Keychain : Type := {
  getSubscribeKey : option string;
  getPublishKey : option string;
  getSecretKey : option string;
  getAuthKey : option string;
  getUUID : option string;
  getInstanceId : option string
}.

(** The Config collaborator. *)
Record Config : Type := {
  isInstanceIdEnabled : bool;
  transactionalRequestTimeout : Z;
  subscribeRequestTimeout : Z
}.

(** The fields of a Networking instance. [_sendBeacon] is either absent or
    a function from the beacon URL to whether the user agent queued it.
    [_coreParams] holds the own properties of the core-parameter object and
    [_coreParams_proto] its prototype: [None] for [Object.prototype], with
    which the object starts, or the object or [null] that an assignment to
    its [__proto__] has put in that place. *)
Record Networking : Type := {
  _sendBeacon : option (string -> bool);
  _keychain : Keychain;
  _config : Config;
  _maxSubDomain : Z;
  _currentSubDomain : Z;
  _standardOrigin : string;
  _subscribeOrigin : string;
  _providedFQDN : string;
  _coreParams : Params;
  _coreParams_proto : option JsVal
}.

Definition set_currentSubDomain (n : Z) (st : Networking) : Networking :=
  {| _sendBeacon := _sendBeacon st; _keychain := _keychain st;
     _config := _config st; _maxSubDomain := _maxSubDomain st;
     _currentSubDomain := n;
     _standardOrigin := _standardOrigin st;
     _subscribeOrigin := _subscribeOrigin st;
     _providedFQDN := _providedFQDN st; _coreParams := _coreParams st;
     _coreParams_proto := _coreParams_proto st |}.

Definition set_standardOrigin (o : string) (st : Networking) : Networking :=
  {| _sendBeacon := _sendBeacon st; _keychain := _keychain st;
     _config := _config st; _maxSubDomain := _maxSubDomain st;
     _currentSubDomain := _currentSubDomain st;
     _standardOrigin := o;
     _subscribeOrigin := _subscribeOrigin st;
     _providedFQDN := _providedFQDN st; _coreParams := _coreParams st;
     _coreParams_proto := _coreParams_proto st |}.

Definition set_subscribeOrigin (o : string) (st : Networking) : Networking :=
  {| _sendBeacon := _sendBeacon st; _keychain := _keychain st;
     _config := _config st; _maxSubDomain := _maxSubDomain st;
     _currentSubDomain := _currentSubDomain st;
     _standardOrigin := _standardOrigin st;
     _subscribeOrigin := o;
     _providedFQDN := _providedFQDN st; _coreParams := _coreParams st;
     _coreParams_proto := _coreParams_proto st |}.

Definition set_coreParams (p : Params) (st : Networking) : Networking :=
  {| _sendBeacon := _sendBeacon st; _keychain := _keychain st;
     _config := _config st; _maxSubDomain := _maxSubDomain st;
     _currentSubDomain := _currentSubDomain st;
     _standardOrigin := _standardOrigin st;
     _subscribeOrigin := _subscribeOrigin st;
     _providedFQDN := _providedFQDN st; _coreParams := p;
     _coreParams_proto := _coreParams_proto st |}.

Definition set_coreParams_proto (proto : option JsVal) (st : Networking)
  : Networking :=
  {| _sendBeacon := _sendBeacon st; _keychain := _keychain st;
     _config := _config st; _maxSubDomain := _maxSubDomain st;
     _currentSubDomain := _currentSubDomain st;
     _standardOrigin := _standardOrigin st;
     _subscribeOrigin := _subscribeOrigin st;
     _providedFQDN := _providedFQDN st; _coreParams := _coreParams st;
     _coreParams_proto := proto |}.

(** ** Effects *)

Inductive Method : Type := GET | POST.

(** What an observer of one instance sees: requests handed to the
    transport, beacons handed to the user agent, and invocations
    [callback(err, result)] of the operation's completion callback. *)
Inductive Event : Type :=
| Sent (m : Method) (url : string) (timeout : Z) (query : Params)
| Beacon (url : string)
| Called (err result : JsVal).

Inductive JsError : Type :=
| TypeError (what : string)
| ReferenceError (name : string)
| SyntaxError (text : string).

Inductive Result (A : Type) : Type :=
| Normal (a : A)
| Throw (e : JsError).
Arguments Normal {A} a.
Arguments Throw {A} e.

(** The mutable world of a run: the instance, the events so far, and how
    many identifiers the random generator has handed out. *)
Record World : Type := {
  inst : Networking;
  trace : list Event;
  draws : nat
}.

(** A computation threads the world and either returns or throws; a throw
    keeps the mutations made before it. *)
Definition M (A : Type) : Type := World -> Result A * World.

Definition ret {A} (a : A) : M A := fun w => (Normal a, w).

Definition bind {A B} (c : M A) (k : A -> M B) : M B :=
  fun w =>
    match c w with
    | (Normal a, w') => k a w'
    | (Throw e, w') => (Throw e, w')
    end.

Definition throw {A} (e : JsError) : M A := fun w => (Throw e, w).

Declare Scope js_scope.
Delimit Scope js_scope with js.
Notation "x <- c ;; k" := (bind c (fun x => k))
  (at level 100, c at next level, k at level 200, right associativity)
  : js_scope.
Notation "c ;; k" := (bind c (fun _ => k))
  (at level 100, k at level 200, right associativity) : js_scope.
Local Open Scope js_scope.

Definition this : M Networking := fun w => (Normal (inst w), w).

Definition modify (f : Networking -> Networking) : M unit :=
  fun w =>
    (Normal tt, {| inst := f (inst w); trace := trace w; draws := draws w |}).

Definition emit (e : Event) : M unit :=
  fun w =>
    (Normal tt,
     {| inst := inst w; trace := (trace w ++ [e])%list; draws := draws w |}).

Definition draw : M nat :=
  fun w =>
    (Normal (draws w),
     {| inst := inst w; trace := trace w; draws := S (draws w) |}).

Definition when (b : bool) (c : M unit) : M unit := if b then c else ret tt.

(** The world an operation leaves behind and the events it added. *)
Definition after {A} (c : M A) (w : World) : World := snd (c w).
Definition outcome {A} (c : M A) (w : World) : Result A := fst (c w).

(** ** Collaborators outside the class *)

(** What the transport hands to the [end] handler: [err] and [resp]. *)
Record Response : Type := {
  resp_error : JsVal;
  resp_text : string
}.

(** The imports and built-ins the class calls. Their bodies are not part
    of the class; every result below holds for any of them.
    [generateUUID n] is the [n]-th identifier the random source hands out,
    [JSON_parse] returns [None] where [JSON.parse] raises. *)
Record Externals : Type := {
  encode : string -> string;
  generateUUID : nat -> string;
  buildURL : list JsVal -> Params -> string;
  _get_pam_sign_input_from_params : Params -> string;
  validationError : string -> JsVal;
  encrypt : JsVal -> string;
  JSON_stringify : JsVal -> JsVal;
  JSON_parse : string -> option JsVal;
  transport : Method -> string -> Z -> Params -> JsVal * Response
}.

(** Names the class uses without defining them: three members read off
    [this] that neither the constructor nor the class body sets, and the
    free identifiers of [performGrant] and [performAudit] ([auth_key],
    [args], [success], [fail]), which resolve in the global scope or not at
    all. A member is [None] when the instance has no such property. *)
Record Unbound : Type := {
  this_error : option (string -> JsVal);
  this_networking_prepareParams : option (option Params -> Params);
  this_hmac_SHA256 : option (string -> string -> string);
  globals : Params
}.

(** The class exactly as the file has it: nothing patched onto the
    instance, no helpful globals. *)
Definition as_written : Unbound :=
  {| this_error := None;
     this_networking_prepareParams := None;
     this_hmac_SHA256 := None;
     globals := ∅ |}.

(** A function value received as an argument: the caller's completion
    callback, or [undefined]. *)
Inductive Callback : Type := UserCallback | NoCallback.

Definition invoke (callback : Callback) (err result : JsVal) : M unit :=
  match callback with
  | UserCallback => emit (Called err result)
  | NoCallback => throw (TypeError "callback is not a function")
  end.

Definition LF : string := String (ascii_of_nat 10) "".

(** [!this._keychain.getX()] *)
Definition missing (k : option string) : bool := negb (truthy (of_key k)).

(** [timeout || fallback] *)
Definition or_timeout (timeout : option Z) (fallback : Z) : Z :=
  match timeout with
  | Some t => if t =? 0 then fallback else t
  | None => fallback
  end.

(** [if (v) data[key] = v] for a keychain value [v]. *)
Definition set_if_present (key : string) (k : option string) (data : Params)
  : Params :=
  if truthy (of_key k) then <[key := of_key k]> data else data.

(** ** Parameter composer *)

(** [prepareParams(data)]. It reads the instance and returns the composed
    mapping; in the source that mapping is the caller's own object,
    updated in place, whenever the caller passed one. [utils.each] hands
    the callback each own property of the core parameters, name first. *)
Definition prepareParams (st : Networking) (data : option Params) : Params :=
  let data := default ∅ data in
  let data :=
    map_fold
      (fun key value data =>
         if negb (has_property data key) then <[key := value]> data
         else data)
      data (_coreParams st) in
  if isInstanceIdEnabled (_config st)
  then <["instanceid" := of_key (getInstanceId (_keychain st))]> data
  else data.

(** [this._coreParams = params; return this]: the caller's object takes
    the place of the old one, prototype included. *)
Definition setCoreParams (params : Params) : M Networking :=
  modify (fun st => set_coreParams_proto None (set_coreParams params st)) ;;
  this.

(** Whether [o.__proto__ = value] reaches the accessor that
    [Object.prototype] defines for [__proto__]: it does unless [o] has an
    own property of that name, or inherits none (prototype [null]), or
    inherits a data property of that name from its prototype. *)
Definition reaches_accessor (own : Params) (proto : option JsVal) : bool :=
  match own !! "__proto__" with
  | Some _ => false
  | None =>
      match proto with
      | Some JNull => false
      | Some (JObj fields) =>
          negb (existsb (fun f => String.eqb (fst f) "__proto__") fields)
      | _ => true
      end
  end.

(** The values the [__proto__] accessor installs as prototype; it ignores
    every other value. *)
Definition object_or_null (v : JsVal) : bool :=
  match v with
  | JNull | JArr _ | JObj _ => true
  | _ => false
  end.

(** [this._coreParams[key] = value]. An assignment creates or updates an
    own property, except for the name [__proto__] where that reaches the
    accessor: then the prototype is replaced, or nothing happens. *)
Definition addCoreParam (key : string) (value : JsVal) : M unit :=
  modify
    (fun st =>
       if String.eqb key "__proto__"
          && reaches_accessor (_coreParams st) (_coreParams_proto st)
       then if object_or_null value
            then set_coreParams_proto (Some value) st
            else st
       else set_coreParams (<[key := value]> (_coreParams st)) st).

Definition getStandardOrigin (st : Networking) : string := _standardOrigin st.
Definition getSubscribeOrigin (st : Networking) : string := _subscribeOrigin st.

(** ** The class *)

Section Class.

Variable X : Externals.
Variable U : Unbound.

(** *** Origin rotator *)

Definition nextOrigin (failover : bool) : M string :=
  st <- this ;;
  if indexOf (_providedFQDN st) "pubsub." =? -1 then ret (_providedFQDN st)
  else
    newSubDomain <-
      (if failover then
         n <- draw ;;
         ret (split_head "-" (generateUUID X n))
       else
         modify (fun s => set_currentSubDomain (_currentSubDomain s + 1) s) ;;
         s1 <- this ;;
         when (_maxSubDomain s1 <=? _currentSubDomain s1)
              (modify (set_currentSubDomain 1)) ;;
         s2 <- this ;;
         ret (toString (_currentSubDomain s2))) ;;
    ret (replace (_providedFQDN st) "pubsub" ("ps" +:+ newSubDomain)).

Definition shiftStandardOrigin (failover : bool) : M string :=
  o <- nextOrigin failover ;;
  modify (set_standardOrigin o) ;;
  ret o.

Definition shiftSubscribeOrigin (failover : bool) : M string :=
  o <- nextOrigin failover ;;
  modify (set_subscribeOrigin o) ;;
  ret o.

(** The constructor; [r] is [Math.floor(Math.random() * 20)]. *)
Definition constructor (config : Config) (keychain : Keychain)
    (sendBeacon : option (string -> bool)) (ssl : bool) (origin : string)
    (r : Z) : World :=
  after
    (shiftStandardOrigin false ;; shiftSubscribeOrigin false)
    {| inst :=
         {| _sendBeacon := sendBeacon; _keychain := keychain;
            _config := config; _maxSubDomain := 20; _currentSubDomain := r;
            _standardOrigin := ""; _subscribeOrigin := "";
            _providedFQDN := (if ssl then "https://" else "http://") +:+ origin;
            _coreParams := ∅; _coreParams_proto := None |};
       trace := []; draws := 0 |}.

(** *** Transport *)

(** [_abstractedXDR]: the request is handed to the transport, and the
    [end] handler runs on what the transport reports. The handler runs
    when the transport completes; a run here covers the operation up to
    and including its handler, and an exception raised inside the handler
    is the run's [Throw]. *)
Definition _abstractedXDR (m : Method) (url : string) (timeout : Z)
    (data : Params) (callback : Callback) : M unit :=
  emit (Sent m url timeout data) ;;
  let '(err, resp) := transport X m url timeout data in
  if truthy err then invoke callback err JNull
  else if truthy (resp_error resp) then invoke callback (resp_error resp) JNull
  else match JSON_parse X (resp_text resp) with
       | None => throw (SyntaxError (resp_text resp))
       | Some parsed => invoke callback JNull parsed
       end.

Definition _postXDR (data : Params) (url : list JsVal) (timeout : option Z)
    (callback : Callback) : M unit :=
  st <- this ;;
  _abstractedXDR POST (join "/" url)
    (or_timeout timeout (transactionalRequestTimeout (_config st)))
    data callback.

Definition _xdr (data : Params) (url : list JsVal) (timeout : option Z)
    (callback : Callback) : M unit :=
  st <- this ;;
  _abstractedXDR GET (join "/" url)
    (or_timeout timeout (transactionalRequestTimeout (_config st)))
    data callback.

(** *** Operations *)

Definition fetchHistory (channel : string) (incomingData : option Params)
    (callback : Callback) : M unit :=
  st <- this ;;
  let kc := _keychain st in
  if missing (getSubscribeKey kc) then
    invoke callback (validationError X "Missing Subscribe Key") JUndefined
  else
    let url :=
      [JStr (getStandardOrigin st); JStr "v2"; JStr "history"; JStr "sub-key";
       of_key (getSubscribeKey kc); JStr "channel"; JStr (encode X channel)] in
    let data := prepareParams st incomingData in
    let data := set_if_present "auth" (getAuthKey kc) data in
    _xdr data url None callback.

Definition performChannelGroupOperation (channelGroup mode : string)
    (incomingData : option Params) (callback : Callback) : M unit :=
  st <- this ;;
  let kc := _keychain st in
  if missing (getSubscribeKey kc) then
    invoke callback (validationError X "Missing Subscribe Key") JUndefined
  else
    let url :=
      [JStr (getStandardOrigin st); JStr "v1"; JStr "channel-registration";
       JStr "sub-key"; of_key (getSubscribeKey kc); JStr "channel-group"] in
    let url :=
      if truthy (JStr channelGroup) && negb (String.eqb channelGroup "*")
      then (url ++ [JStr channelGroup])%list else url in
    let url :=
      if String.eqb mode "remove" then (url ++ [JStr "remove"])%list else url in
    let data := prepareParams st incomingData in
    let data := set_if_present "auth" (getAuthKey kc) data in
    _xdr data url None callback.

Definition provisionDeviceForPush (deviceId : string)
    (incomingData : option Params) (callback : Callback) : M unit :=
  st <- this ;;
  let kc := _keychain st in
  if missing (getSubscribeKey kc) then
    invoke callback (validationError X "Missing Subscribe Key") JUndefined
  else if missing (getPublishKey kc) then
    invoke callback (validationError X "Missing Publish Key") JUndefined
  else
    let url :=
      [JStr (getStandardOrigin st); JStr "v1"; JStr "push"; JStr "sub-key";
       of_key (getSubscribeKey kc); JStr "devices"; JStr deviceId] in
    let data := prepareParams st incomingData in
    let data := <["uuid" := of_key (getUUID kc)]> data in
    let data := <["auth" := of_key (getAuthKey kc)]> data in
    _xdr data url None callback.

Definition performHeartbeat (channels : string)
    (incomingData : option Params) (callback : Callback) : M unit :=
  st <- this ;;
  let kc := _keychain st in
  if missing (getSubscribeKey kc) then
    invoke callback (validationError X "Missing Subscribe Key") JUndefined
  else
    let data := prepareParams st incomingData in
    let url :=
      [JStr (getStandardOrigin st); JStr "v2"; JStr "presence";
       JStr "sub-key"; of_key (getSubscribeKey kc);
       JStr "channel"; JStr channels; JStr "heartbeat"] in
    _xdr data url None callback.

(** The completion the beacon path synthesizes. *)
Definition leave_ok : JsVal :=
  JObj [("status", JNum 200); ("action", JStr "leave");
        ("message", JStr "OK"); ("service", JStr "Presence")].

Definition performLeave (channel : string) (incomingData : option Params)
    (callback : Callback) : M unit :=
  st <- this ;;
  let kc := _keychain st in
  if missing (getSubscribeKey kc) then
    invoke callback (validationError X "Missing Subscribe Key") JUndefined
  else
    let data := prepareParams st incomingData in
    origin <- nextOrigin false ;;
    let url :=
      [JStr origin; JStr "v2"; JStr "presence"; JStr "sub_key";
       of_key (getSubscribeKey kc); JStr "channel"; JStr (encode X channel);
       JStr "leave"] in
    let data := set_if_present "auth" (getAuthKey kc) data in
    let data := set_if_present "uuid" (getUUID kc) data in
    match _sendBeacon st with
    | Some sendBeacon =>
        let target := buildURL X url data in
        emit (Beacon target) ;;
        when (sendBeacon target) (invoke callback JNull leave_ok)
    | None => _xdr data url None callback
    end.

Definition fetchTime (callback : Callback) : M unit :=
  st <- this ;;
  let kc := _keychain st in
  let data := prepareParams st (Some ∅) in
  let url := [JStr (getStandardOrigin st); JStr "time"; JNum 0] in
  let data := set_if_present "uuid" (getUUID kc) data in
  let data := set_if_present "auth" (getAuthKey kc) data in
  _xdr data url None callback.

Definition fetchWhereNow (uuid : option string) (callback : Callback)
  : M unit :=
  st <- this ;;
  let kc := _keychain st in
  if missing (getSubscribeKey kc) then
    invoke callback (validationError X "Missing Subscribe Key") JUndefined
  else
    let data := prepareParams st (Some ∅) in
    let data := set_if_present "auth" (getAuthKey kc) data in
    let uuid := if missing uuid then getUUID kc else uuid in
    let url :=
      [JStr (getStandardOrigin st); JStr "v2"; JStr "presence";
       JStr "sub-key"; of_key (getSubscribeKey kc);
       JStr "uuid"; JStr (encode X (to_str (of_key uuid)))] in
    _xdr data url None callback.

Definition fetchHereNow (channel channelGroup : string)
    (incomingData : option Params) (callback : Callback) : M unit :=
  st <- this ;;
  let kc := _keychain st in
  if missing (getSubscribeKey kc) then
    invoke callback (validationError X "Missing Subscribe Key") JUndefined
  else
    let data := prepareParams st incomingData in
    let data := set_if_present "uuid" (getUUID kc) data in
    let data := set_if_present "auth" (getAuthKey kc) data in
    let url :=
      [JStr (getStandardOrigin st); JStr "v2"; JStr "presence";
       JStr "sub-key"; of_key (getSubscribeKey kc)] in
    let url :=
      if truthy (JStr channel)
      then (url ++ [JStr "channel"; JStr (encode X channel)])%list else url in
    let url :=
      if truthy (JStr channelGroup) && negb (truthy (JStr channel))
      then (url ++ [JStr "channel"; JStr ","])%list else url in
    _xdr data url None callback.

Definition setState (channel : string) (incomingData : option Params)
    (callback : Callback) : M unit :=
  st <- this ;;
  let kc := _keychain st in
  if missing (getSubscribeKey kc) then
    invoke callback (validationError X "Missing Subscribe Key") JUndefined
  else
    let data := prepareParams st incomingData in
    let url :=
      [JStr (getStandardOrigin st); JStr "v2"; JStr "presence";
       JStr "sub-key"; of_key (getSubscribeKey kc);
       JStr "channel"; JStr channel; JStr "uuid"; of_key (getUUID kc);
       JStr "data"] in
    let data := set_if_present "auth" (getAuthKey kc) data in
    let data :=
      <["state" := JSON_stringify X (default JUndefined (data !! "state"))]>
        data in
    _xdr data url None callback.

Definition fetchState (uuid : option string) (channel : string)
    (incomingData : option Params) (callback : Callback) : M unit :=
  st <- this ;;
  let kc := _keychain st in
  if missing (getSubscribeKey kc) then
    invoke callback (validationError X "Missing Subscribe Key") JUndefined
  else
    let uuid := if missing uuid then getUUID kc else uuid in
    let data := prepareParams st incomingData in
    let url :=
      [JStr (getStandardOrigin st); JStr "v2"; JStr "presence";
       JStr "sub-key"; of_key (getSubscribeKey kc);
       JStr "channel"; JStr channel; JStr "uuid"; of_key uuid] in
    let data := set_if_present "auth" (getAuthKey kc) data in
    _xdr data url None callback.

Definition performPublish (channel : string) (msg : JsVal)
    (incomingData : option Params) (mode : string) (callback : Callback)
  : M unit :=
  st <- this ;;
  let kc := _keychain st in
  if missing (getSubscribeKey kc) then
    invoke callback (validationError X "Missing Subscribe Key") JUndefined
  else if missing (getPublishKey kc) then
    invoke callback (validationError X "Missing Publish Key") JUndefined
  else
    let stringifiedMessage := JSON_stringify X msg in
    let encryptedMessage := encrypt X stringifiedMessage in
    let url :=
      [JStr (getStandardOrigin st); JStr "publish";
       of_key (getPublishKey kc); of_key (getSubscribeKey kc);
       JNum 0; JStr (encode X channel);
       JNum 0; JStr (encode X encryptedMessage)] in
    let data := prepareParams st incomingData in
    let data := set_if_present "uuid" (getUUID kc) data in
    let data := set_if_present "auth" (getAuthKey kc) data in
    if String.eqb mode "POST" then _postXDR data url None callback
    else _xdr data url None callback.

Definition performSubscribe (channels : string) (timetoken : Z)
    (incomingData : option Params) (callback : Callback) : M unit :=
  st <- this ;;
  let kc := _keychain st in
  if missing (getSubscribeKey kc) then
    invoke callback (validationError X "Missing Subscribe Key") JUndefined
  else
    let url :=
      [JStr (getSubscribeOrigin st); JStr "subscribe";
       of_key (getSubscribeKey kc); JStr (encode X channels);
       JNum 0; JNum timetoken] in
    let data := prepareParams st incomingData in
    let data := set_if_present "uuid" (getUUID kc) data in
    let data := set_if_present "auth" (getAuthKey kc) data in
    let timeout := subscribeRequestTimeout (_config st) in
    _xdr data url (Some timeout) callback.

(** *** Access-control operations *)

(** Reading a free identifier: the global of that name, or a
    [ReferenceError]. *)
Definition identifier (name : string) : M JsVal :=
  match globals U !! name with
  | Some v => ret v
  | None => throw (ReferenceError name)
  end.

(** [v.name] *)
Definition get_prop (v : JsVal) (name : string) : M JsVal :=
  match v with
  | JUndefined | JNull =>
      throw (TypeError ("Cannot read property " +:+ name))
  | JObj fields =>
      ret (default JUndefined
             (snd <$> List.find (fun f => String.eqb (fst f) name) fields))
  | _ => ret JUndefined
  end.

(** [this._error(message)] *)
Definition _error (message : string) : M unit :=
  match this_error U with
  | Some _ => ret tt
  | None => throw (TypeError "this._error is not a function")
  end.

(** [this._networking.prepareParams(data)] *)
Definition _networking_prepareParams (data : option Params) : M Params :=
  match this_networking_prepareParams U with
  | Some f => ret (f data)
  | None => throw (TypeError "Cannot read property prepareParams")
  end.

(** [this._hmac_SHA256(data, key)] *)
Definition _hmac_SHA256 (data key : string) : M string :=
  match this_hmac_SHA256 U with
  | Some f => ret (f data key)
  | None => throw (TypeError "this._hmac_SHA256 is not a function")
  end.

Definition performGrant (authKey : JsVal) (data : option Params)
    (callback : Callback) : M unit :=
  st <- this ;;
  let kc := _keychain st in
  if missing (getSubscribeKey kc) then _error "Missing Subscribe Key"
  else if missing (getPublishKey kc) then _error "Missing Publish Key"
  else if missing (getSecretKey kc) then _error "Missing Secret Key"
  else
    let sign_input :=
      to_str (of_key (getSubscribeKey kc)) +:+ LF +:+
      to_str (of_key (getPublishKey kc)) +:+ LF +:+
      "grant" +:+ LF in
    let url :=
      [JStr (getStandardOrigin st); JStr "v1"; JStr "auth"; JStr "grant";
       JStr "sub-key"; of_key (getSubscribeKey kc)] in
    data <- _networking_prepareParams data ;;
    auth_key <- identifier "auth_key" ;;
    let data := if negb (truthy auth_key) then delete "auth" data else data in
    let sign_input := sign_input +:+ _get_pam_sign_input_from_params X data in
    signature <- _hmac_SHA256 sign_input (to_str (of_key (getSecretKey kc))) ;;
    let signature := replace_all "+" "-" signature in
    let signature := replace_all "/" "_" signature in
    let data := <["signature" := JStr signature]> data in
    _xdr data url None callback.

Definition performAudit (authKey : JsVal) (data : option Params)
    (callback : Callback) : M unit :=
  args <- identifier "args" ;;
  auth_key <- get_prop args "auth_key" ;;
  st <- this ;;
  let kc := _keychain st in
  if missing (getSubscribeKey kc) then _error "Missing Subscribe Key"
  else if missing (getPublishKey kc) then _error "Missing Publish Key"
  else if missing (getSecretKey kc) then _error "Missing Secret Key"
  else
    let sign_input :=
      to_str (of_key (getSubscribeKey kc)) +:+ LF +:+
      to_str (of_key (getPublishKey kc)) +:+ LF +:+
      "audit" +:+ LF in
    data <-
      (if truthy auth_key then
         match data with
         | Some d => ret (Some (<["auth" := auth_key]> d))
         | None => throw (TypeError "Cannot set property auth")
         end
       else ret data) ;;
    data <- _networking_prepareParams data ;;
    let data := if negb (truthy auth_key) then delete "auth" data else data in
    let sign_input := sign_input +:+ _get_pam_sign_input_from_params X data in
    signature <- _hmac_SHA256 sign_input (to_str (of_key (getSecretKey kc))) ;;
    let signature := replace_all "+" "-" signature in
    let signature := replace_all "/" "_" signature in
    let data := <["signature" := JStr signature]> data in
    let url :=
      [JStr (getStandardOrigin st); JStr "v1"; JStr "auth"; JStr "audit";
       JStr "sub-key"; of_key (getSubscribeKey kc)] in
    _ <- identifier "success" ;;
    _ <- identifier "fail" ;;
    _xdr data url None NoCallback.

End Class.

(** ** Auxiliary definitions for the statements *)

(** The core parameters the composer can copy into a plain object: those
    under a name the object does not inherit. *)
Definition copied (core : Params) : Params :=
  filter (fun kv => inherited (fst kv) = false) core.

(** The test [nextOrigin] makes on the base: a literal custom origin does
    not contain the routing token, a pool template does. *)
Definition is_custom (st : Networking) : bool :=
  indexOf (_providedFQDN st) "pubsub." =? -1.

(** [k] successive calls of [nextOrigin(false)]; the origin returned is
    that of the last call. *)
Fixpoint rotate (X : Externals) (k : nat) : M string :=
  match k with
  | O => st <- this ;; ret (_providedFQDN st)
  | S O => nextOrigin X false
  | S k' => nextOrigin X false ;; rotate X k'
  end.

Definition with_counter (c : Z) (w : World) : World :=
  {| inst := set_currentSubDomain c (inst w);
     trace := trace w; draws := draws w |}.

(** The counter a normal advance moves to. *)
Definition advance (poolSize c : Z) : Z :=
  if poolSize <=? c + 1 then 1 else c + 1.

(** The origin of a pool base with subdomain token [sub]. *)
Definition pool_origin (st : Networking) (sub : string) : string :=
  replace (_providedFQDN st) "pubsub" ("ps" +:+ sub).

(** ** A concrete set of collaborators

    The class is run on examples with the following stand-ins for its
    imports. *)

Definition hex_digit (n : nat) : ascii :=
  nth n (list_ascii_of_string "0123456789ABCDEF") "0"%char.

Definition unreserved (c : ascii) : bool :=
  let n := nat_of_ascii c in
  ((65 <=? n) && (n <=? 90) || (97 <=? n) && (n <=? 122)
   || (48 <=? n) && (n <=? 57))%nat
  || existsb (Ascii.eqb c) (list_ascii_of_string "-_.!~*'()").

(** Modelled from the spec: [utils.encode], the percent-encoding of a path
    segment, is imported by the class and not defined in it. Every byte
    outside the unreserved set becomes [%XX]. *)
Fixpoint percent_encode (s : string) : string :=
  match s with
  | EmptyString => EmptyString
  | String c rest =>
      if unreserved c then String c (percent_encode rest)
      else
        let n := nat_of_ascii c in
        String "%" (String (hex_digit (n / 16))
                      (String (hex_digit (n mod 16)) (percent_encode rest)))
  end.

Fixpoint insert_by_key (kv : string * JsVal) (l : list (string * JsVal))
  : list (string * JsVal) :=
  match l with
  | [] => [kv]
  | kv' :: rest =>
      if String.leb (fst kv) (fst kv') then kv :: l
      else kv' :: insert_by_key kv rest
  end.

(** Modelled from the spec: [utils._get_pam_sign_input_from_params] is
    imported by the class and not defined in it. The canonical string is
    the [key=value] pairs joined by [&], keys in lexicographic order. *)
Definition canonical_params (data : Params) : string :=
  let pairs := fold_right insert_by_key [] (map_to_list data) in
  concat_with "&" (map (fun kv => fst kv +:+ "=" +:+ to_str (snd kv)) pairs).

Definition sample_buildURL (url : list JsVal) (data : Params) : string :=
  join "/" url +:+ "?" +:+ canonical_params data.

Definition sample_validationError (message : string) : JsVal :=
  JObj [("type", JStr "validationError"); ("message", JStr message)].

Definition sample_uuid (n : nat) : string :=
  nth n ["9f2c41aa-17b3-4d0e-8c55-0123456789ab";
         "03bd77e1-52c4-4a6f-9d10-ba9876543210"]
      "5e01c2d3-0000-4000-8000-000000000000".

Definition dquote : ascii := ascii_of_nat 34.

(** A serializer for the values of this model, standing in for
    [JSON.stringify] (strings are quoted without escaping). *)
Fixpoint stringify (v : JsVal) : string :=
  match v with
  | JUndefined | JNull => "null"
  | JBool true => "true"
  | JBool false => "false"
  | JNum n => toString n
  | JStr s => String dquote (s +:+ String dquote "")
  | JArr items =>
      "[" +:+ concat_with "," (map stringify items) +:+ "]"
  | JObj fields =>
      "{" +:+
      concat_with ","
        (map (fun f => String dquote (fst f +:+ String dquote ":")
                         +:+ stringify (snd f)) fields)
      +:+ "}"
  end.

Definition sample_stringify (v : JsVal) : JsVal :=
  match v with
  | JUndefined => JUndefined
  | _ => JStr (stringify v)
  end.

(** A parser for the JSON texts built from [null], [true], [false],
    integers, unescaped strings, arrays and objects, standing in for
    [JSON.parse]: [None] is where [JSON.parse] raises [SyntaxError]. *)
Definition is_space (c : ascii) : bool :=
  existsb (Nat.eqb (nat_of_ascii c)) [32; 9; 10; 13]%nat.

Definition is_digit (c : ascii) : bool :=
  let n := nat_of_ascii c in ((48 <=? n) && (n <=? 57))%nat.

Fixpoint skip_space (s : string) : string :=
  match s with
  | String c rest => if is_space c then skip_space rest else s
  | EmptyString => EmptyString
  end.

Definition expect (word : string) (v : JsVal) (s : string)
  : option (JsVal * string) :=
  if String.prefix word s then Some (v, string_drop (String.length word) s)
  else None.

Fixpoint read_digits (acc : Z) (s : string) : Z * string :=
  match s with
  | String c rest =>
      if is_digit c
      then read_digits (10 * acc + Z.of_nat (nat_of_ascii c - 48)) rest
      else (acc, s)
  | EmptyString => (acc, s)
  end.

Fixpoint read_chars (s : string) : option (string * string) :=
  match s with
  | EmptyString => None
  | String c rest =>
      if Ascii.eqb c dquote then Some ("", rest)
      else if Ascii.eqb c "\"%char then None
      else match read_chars rest with
           | Some (body, tail) => Some (String c body, tail)
           | None => None
           end
  end.

Fixpoint parse_value (fuel : nat) (s : string) : option (JsVal * string) :=
  match fuel with
  | O => None
  | S fuel' =>
      match skip_space s with
      | EmptyString => None
      | String c rest =>
          if Ascii.eqb c "n" then expect "ull" JNull rest
          else if Ascii.eqb c "t" then expect "rue" (JBool true) rest
          else if Ascii.eqb c "f" then expect "alse" (JBool false) rest
          else if Ascii.eqb c dquote then
            match read_chars rest with
            | Some (body, tail) => Some (JStr body, tail)
            | None => None
            end
          else if is_digit c then
            let '(n, tail) := read_digits 0 (String c rest) in Some (JNum n, tail)
          else if Ascii.eqb c "-" then
            match rest with
            | String d _ =>
                if is_digit d
                then let '(n, tail) := read_digits 0 rest in Some (JNum (- n), tail)
                else None
            | EmptyString => None
            end
          else if Ascii.eqb c "[" then
            match skip_space rest with
            | String "]" tail => Some (JArr [], tail)
            | _ =>
                match parse_items fuel' rest with
                | Some (items, tail) => Some (JArr items, tail)
                | None => None
                end
            end
          else if Ascii.eqb c "{" then
            match skip_space rest with
            | String "}" tail => Some (JObj [], tail)
            | _ =>
                match parse_fields fuel' rest with
                | Some (fields, tail) => Some (JObj fields, tail)
                | None => None
                end
            end
          else None
      end
  end
with parse_items (fuel : nat) (s : string) : option (list JsVal * string) :=
  match fuel with
  | O => None
  | S fuel' =>
      match parse_value fuel' s with
      | Some (v, tail) =>
          match skip_space tail with
          | String "]" tail' => Some ([v], tail')
          | String "," tail' =>
              match parse_items fuel' tail' with
              | Some (vs, tail'') => Some (v :: vs, tail'')
              | None => None
              end
          | _ => None
          end
      | None => None
      end
  end
with parse_fields (fuel : nat) (s : string)
  : option (list (string * JsVal) * string) :=
  match fuel with
  | O => None
  | S fuel' =>
      match skip_space s with
      | String q rest =>
          if Ascii.eqb q dquote then
            match read_chars rest with
            | Some (name, tail) =>
                match skip_space tail with
                | String ":" tail' =>
                    match parse_value fuel' tail' with
                    | Some (v, tail'') =>
                        match skip_space tail'' with
                        | String "}" t => Some ([(name, v)], t)
                        | String "," t =>
                            match parse_fields fuel' t with
                            | Some (fs, t') => Some ((name, v) :: fs, t')
                            | None => None
                            end
                        | _ => None
                        end
                    | None => None
                    end
                | _ => None
                end
            | None => None
            end
          else None
      | EmptyString => None
      end
  end.

Definition sample_parse (text : string) : option JsVal :=
  match parse_value (S (String.length text)) text with
  | Some (v, tail) =>
      match skip_space tail with
      | EmptyString => Some v
      | _ => None
      end
  | None => None
  end.

(** The collaborators, for a given behaviour [net] of the transport. *)
Definition sample_externals
    (net : Method -> string -> Z -> Params -> JsVal * Response) : Externals :=
  {| encode := percent_encode;
     generateUUID := sample_uuid;
     buildURL := sample_buildURL;
     _get_pam_sign_input_from_params := canonical_params;
     validationError := sample_validationError;
     encrypt := to_str;
     JSON_stringify := sample_stringify;
     JSON_parse := sample_parse;
     transport := net |}.

(** Transports: one that answers every request with the body [text], and
    one that fails every request with a transport error. *)
Definition answering (text : string)
  : Method -> string -> Z -> Params -> JsVal * Response :=
  fun _ _ _ _ => (JNull, {| resp_error := JUndefined; resp_text := text |}).

Definition unreachable
  : Method -> string -> Z -> Params -> JsVal * Response :=
  fun _ _ _ _ =>
    (JObj [("message", JStr "timeout")],
     {| resp_error := JUndefined; resp_text := "" |}).

Definition sample_keychain : Keychain :=
  {| getSubscribeKey := Some "sub-c-1";
     getPublishKey := Some "pub-c-1";
     getSecretKey := Some "sec-c-1";
     getAuthKey := None;
     getUUID := Some "user-1";
     getInstanceId := Some "inst-1" |}.

Definition sample_config : Config :=
  {| isInstanceIdEnabled := false;
     transactionalRequestTimeout := 15000;
     subscribeRequestTimeout := 310000 |}.

(** A freshly constructed instance on the default pool origin, with
    random draw [7]. *)
Definition sample_world : World :=
  constructor (sample_externals (answering "[]"))
    sample_config sample_keychain None false "pubsub.pubnub.com" 7.

(** The same on a literal custom origin. *)
Definition custom_world : World :=
  constructor (sample_externals (answering "[]"))
    sample_config sample_keychain None true "relay.example.org" 7.

(** ** Operations as data *)

(** The operations that report through the caller's completion callback,
    with their arguments. *)
Inductive Operation : Type :=
| FetchHistory (channel : string) (incomingData : option Params)
| PerformChannelGroupOperation (channelGroup mode : string)
    (incomingData : option Params)
| ProvisionDeviceForPush (deviceId : string) (incomingData : option Params)
| PerformHeartbeat (channels : string) (incomingData : option Params)
| PerformLeave (channel : string) (incomingData : option Params)
| FetchTime
| FetchWhereNow (uuid : option string)
| FetchHereNow (channel channelGroup : string) (incomingData : option Params)
| SetState (channel : string) (incomingData : option Params)
| FetchState (uuid : option string) (channel : string)
    (incomingData : option Params)
| PerformPublish (channel : string) (msg : JsVal)
    (incomingData : option Params) (mode : string)
| PerformSubscribe (channels : string) (timetoken : Z)
    (incomingData : option Params).

Definition perform (X : Externals) (op : Operation) (callback : Callback)
  : M unit :=
  match op with
  | FetchHistory channel data => fetchHistory X channel data callback
  | PerformChannelGroupOperation group mode data =>
      performChannelGroupOperation X group mode data callback
  | ProvisionDeviceForPush deviceId data =>
      provisionDeviceForPush X deviceId data callback
  | PerformHeartbeat channels data => performHeartbeat X channels data callback
  | PerformLeave channel data => performLeave X channel data callback
  | FetchTime => fetchTime X callback
  | FetchWhereNow uuid => fetchWhereNow X uuid callback
  | FetchHereNow channel group data =>
      fetchHereNow X channel group data callback
  | SetState channel data => setState X channel data callback
  | FetchState uuid channel data => fetchState X uuid channel data callback
  | PerformPublish channel msg data mode =>
      performPublish X channel msg data mode callback
  | PerformSubscribe channels timetoken data =>
      performSubscribe X channels timetoken data callback
  end.

(** The events a run adds to the trace. *)
Definition events_of {A} (c : M A) (w : World) : list Event :=
  drop (List.length (trace w)) (trace (after c w)).

Definition is_called (e : Event) : bool :=
  match e with
  | Called _ _ => true
  | _ => false
  end.

(** How often the completion callback was invoked. *)
Definition completions (evs : list Event) : nat :=
  List.length (List.filter is_called evs).

(** The collaborators with another encoder in place of [utils.encode]. *)
Definition with_encode (f : string -> string) (X : Externals) : Externals :=
  {| encode := f;
     generateUUID := generateUUID X;
     buildURL := buildURL X;
     _get_pam_sign_input_from_params := _get_pam_sign_input_from_params X;
     validationError := validationError X;
     encrypt := encrypt X;
     JSON_stringify := JSON_stringify X;
     JSON_parse := JSON_parse X;
     transport := transport X |}.

(** An instance whose environment offers a beacon function that refuses
    every beacon, and one with the instance-identity flag on. *)
Definition beacon_world : World :=
  constructor (sample_externals (answering "[]"))
    sample_config sample_keychain (Some (fun _ => false))
    false "pubsub.pubnub.com" 7.

Definition identified_world : World :=
  constructor (sample_externals unreachable)
    {| isInstanceIdEnabled := true;
       transactionalRequestTimeout := 15000;
       subscribeRequestTimeout := 310000 |}
    sample_keychain None false "pubsub.pubnub.com" 3.

(** The world with further events. *)
Definition extend (w : World) (evs : list Event) : World :=
  {| inst := inst w; trace := (trace w ++ evs)%list; draws := draws w |}.

(** The URLs of the requests among some events. *)
Definition sent_urls (evs : list Event) : list string :=
  flat_map (fun e => match e with Sent _ url _ _ => [url] | _ => [] end) evs.

(** The URL-safe form of a base64 string, as the specification words it:
    every [+] becomes [-] and every [/] becomes [_], nothing is removed. *)
Fixpoint base64url (s : string) : string :=
  match s with
  | EmptyString => EmptyString
  | String c rest =>
      String (if Ascii.eqb c "+" then "-"%char
              else if Ascii.eqb c "/" then "_"%char else c)
             (base64url rest)
  end.

(** The string the grant operation signs, and the signature it attaches,
    for a keyed digest [hmac] (message first, key second). *)
Definition grant_sign_input (X : Externals) (kc : Keychain) (data : Params)
  : string :=
  to_str (of_key (getSubscribeKey kc)) +:+ LF +:+
  to_str (of_key (getPublishKey kc)) +:+ LF +:+
  "grant" +:+ LF +:+ _get_pam_sign_input_from_params X data.

Definition grant_signature (X : Externals) (hmac : string -> string -> string)
    (kc : Keychain) (data : Params) : string :=
  base64url (hmac (grant_sign_input X kc data)
                  (to_str (of_key (getSecretKey kc)))).

(** A stand-in for the keyed digest, for running examples: not a real
    HMAC, only a string with base64's alphabet and padding. *)
Definition sample_hmac (data key : string) : string :=
  "q+7/" +:+ toString (Z.of_nat (String.length data + String.length key))
  +:+ "/A+=".

(** The unbound names supplied from outside: the three members patched
    onto the instance [st] ([_networking] being the instance itself), and
    the given globals. *)
Definition supplied (st : Networking) (g : Params) : Unbound :=
  {| this_error := Some (fun message => JStr message);
     this_networking_prepareParams := Some (prepareParams st);
     this_hmac_SHA256 := Some sample_hmac;
     globals := g |}.

(** ** Further definitions for the statements *)

(** The requests among some events: method, URL, timeout and query. *)
Definition sent_requests (evs : list Event)
  : list (Method * string * Z * Params) :=
  flat_map
    (fun e => match e with Sent m url t q => [(m, url, t, q)] | _ => [] end)
    evs.

(** A sequence of calls of [nextOrigin], one per flag, collecting the
    origins returned. *)
Fixpoint nextOrigins (X : Externals) (failovers : list bool)
  : M (list string) :=
  match failovers with
  | [] => ret []
  | failover :: rest =>
      o <- nextOrigin X failover ;;
      os <- nextOrigins X rest ;;
      ret (o :: os)
  end.

(** The subscribe operation, which alone has a timeout of its own. *)
Definition is_subscribe (op : Operation) : bool :=
  match op with
  | PerformSubscribe _ _ _ => true
  | _ => false
  end.

Definition is_leave (op : Operation) : bool :=
  match op with
  | PerformLeave _ _ => true
  | _ => false
  end.

Definition is_heartbeat (op : Operation) : bool :=
  match op with
  | PerformHeartbeat _ _ => true
  | _ => false
  end.

(** Publishing with mode ['POST']. *)
Definition is_post (op : Operation) : bool :=
  match op with
  | PerformPublish _ _ _ mode => String.eqb mode "POST"
  | _ => false
  end.

(** The operations that check the publish key after the subscribe key. *)
Definition needs_publish_key (op : Operation) : bool :=
  match op with
  | ProvisionDeviceForPush _ _ | PerformPublish _ _ _ _ => true
  | _ => false
  end.

(** A keychain with an auth key, one with no key at all, and instances
    built on them. *)
Definition authed_keychain : Keychain :=
  {| getSubscribeKey := Some "sub-c-1";
     getPublishKey := Some "pub-c-1";
     getSecretKey := None;
     getAuthKey := Some "token-1";
     getUUID := Some "user-1";
     getInstanceId := Some "inst-1" |}.

Definition empty_keychain : Keychain :=
  {| getSubscribeKey := None; getPublishKey := None; getSecretKey := None;
     getAuthKey := None; getUUID := None; getInstanceId := None |}.

Definition authed_world : World :=
  constructor (sample_externals (answering "[1]"))
    sample_config authed_keychain None false "pubsub.pubnub.com" 7.

Definition keyless_world : World :=
  constructor (sample_externals (answering "[1]"))
    sample_config empty_keychain None false "pubsub.pubnub.com" 7.

Definition subscriber_only_keychain : Keychain :=
  {| getSubscribeKey := Some "sub-c-1"; getPublishKey := None;
     getSecretKey := None; getAuthKey := None; getUUID := Some "user-1";
     getInstanceId := None |}.

Definition subscriber_world : World :=
  constructor (sample_externals (answering "[1]"))
    sample_config subscriber_only_keychain None false "pubsub.pubnub.com" 7.

(** An instance whose configuration gives the subscribe timeout as 0. *)
Definition untimed_world : World :=
  constructor (sample_externals (answering "[1]"))
    {| isInstanceIdEnabled := false;
       transactionalRequestTimeout := 15000;
       subscribeRequestTimeout := 0 |}
    sample_keychain None false "pubsub.pubnub.com" 7.

(** The credential checks an operation makes before anything else: the
    subscribe key (all but the time operation), then the publish key
    (push provisioning and publish). [None] when they pass. *)
Definition rejection (op : Operation) (kc : Keychain) : option string :=
  match op with
  | FetchTime => None
  | _ =>
      if missing (getSubscribeKey kc) then Some "Missing Subscribe Key"
      else if needs_publish_key op && missing (getPublishKey kc)
           then Some "Missing Publish Key"
           else None
  end.

(** The operations that copy the keychain's UUID into the query when it
    is present. *)
Definition injects_uuid (op : Operation) : bool :=
  match op with
  | PerformLeave _ _ | FetchTime | FetchHereNow _ _ _
  | PerformPublish _ _ _ _ | PerformSubscribe _ _ _ => true
  | _ => false
  end.

(** Push provisioning, which writes the keychain's UUID and auth key into
    the query unconditionally, and set-state, which rewrites [state]. *)
Definition is_provision (op : Operation) : bool :=
  match op with
  | ProvisionDeviceForPush _ _ => true
  | _ => false
  end.

Definition is_set_state (op : Operation) : bool :=
  match op with
  | SetState _ _ => true
  | _ => false
  end.

(** The data an operation receives from its caller; the time and
    where-now operations take none and compose an empty object. *)
Definition incoming (op : Operation) : Params :=
  match op with
  | FetchHistory _ d | PerformChannelGroupOperation _ _ d
  | ProvisionDeviceForPush _ d | PerformHeartbeat _ d | PerformLeave _ d
  | FetchHereNow _ _ d | SetState _ d | FetchState _ _ d
  | PerformPublish _ _ d _ | PerformSubscribe _ _ d => default ∅ d
  | FetchTime | FetchWhereNow _ => ∅
  end.

(** What the query of a request holds, relative to the composed mapping
    of the caller's data: the composed mapping itself under every key but
    [auth], [uuid] and, for set-state, [state]; under [auth] and [uuid]
    the keychain's value where the operation injects it; under [state],
    for set-state, the serialized state. *)
Definition query_facts (X : Externals) (op : Operation) (st : Networking)
    (q : Params) : Prop :=
  let kc := _keychain st in
  let composed := prepareParams st (Some (incoming op)) in
  (forall k, k <> "auth" -> k <> "uuid" ->
             (is_set_state op = true -> k <> "state") ->
             q !! k = composed !! k)
  /\ q !! "auth"
     = (if is_provision op then Some (of_key (getAuthKey kc))
        else if negb (is_heartbeat op) && truthy (of_key (getAuthKey kc))
             then Some (of_key (getAuthKey kc))
             else composed !! "auth")
  /\ q !! "uuid"
     = (if is_provision op then Some (of_key (getUUID kc))
        else if injects_uuid op && truthy (of_key (getUUID kc))
             then Some (of_key (getUUID kc))
             else composed !! "uuid")
  /\ (is_set_state op = true ->
      q !! "state"
      = Some (JSON_stringify X (default JUndefined (composed !! "state")))).

(** The timeout an operation hands to the transport: the transactional
    one, except for subscribe, which has its own unless that is 0. *)
Definition timeout_of (op : Operation) (cfg : Config) : Z :=
  if is_subscribe op
  then if subscribeRequestTimeout cfg =? 0
       then transactionalRequestTimeout cfg
       else subscribeRequestTimeout cfg
  else transactionalRequestTimeout cfg.

(** Whether an invocation hands a request to the transport: its checks
    pass, and it is not a leave taking the beacon path. *)
Definition dispatches (op : Operation) (st : Networking) : bool :=
  match rejection op (_keychain st) with
  | Some _ => false
  | None =>
      negb (is_leave op
            && match _sendBeacon st with Some _ => true | None => false end)
  end.

(** The origin an operation addresses: the cached subscribe origin for
    subscribe, a newly advanced one for leave, the cached standard origin
    for every other operation. *)
Definition origin_for (X : Externals) (op : Operation) (w : World) : string :=
  if is_subscribe op then getSubscribeOrigin (inst w)
  else if is_leave op then
    match outcome (nextOrigin X false) w with
    | Normal origin => origin
    | Throw _ => ""
    end
  else getStandardOrigin (inst w).


(** Globals under which the audit operation gets as far as its request. *)
Definition audit_globals : Params :=
  {["args" := JObj [("auth_key", JStr "token-9")];
    "success" := JUndefined; "fail" := JUndefined]}.

(** ** The get-memberships endpoint

    The second source file: an endpoint descriptor for listing the
    memberships of a UUID (validateParams, getURL, prepareParams,
    handleResponse). Its parameter object has optional fields; [include],
    [page] and [sort] are objects or absent, the other fields any value,
    [undefined] when absent. *)
Module GetMemberships.

Record Include : Type := {
  customFields : JsVal;
  customChannelFields : JsVal;
  channelFields : JsVal;
  totalCount : JsVal
}.

Record Page : Type := {
  next : JsVal;
  prev : JsVal
}.

Record GetMembershipsParams : Type := {
  uuid : JsVal;
  include : option Include;
  page : option Page;
  filter : JsVal;
  limit : JsVal;
  sort : option (list (string * JsVal))
}.

(** [params?.field] for a field holding any value. *)
Definition field (f : GetMembershipsParams -> JsVal)
    (params : option GetMembershipsParams) : JsVal :=
  match params with
  | Some p => f p
  | None => JUndefined
  end.

(** [a ?? b] *)
Definition nullish (a b : JsVal) : JsVal :=
  match a with
  | JUndefined | JNull => b
  | _ => a
  end.

(** [validateParams]: the error message, or nothing. *)
Definition validateParams (params : option GetMembershipsParams)
  : option string :=
  if negb (truthy (field uuid params)) then Some "UUID cannot be empty"
  else None.

(** [getURL], a template literal over the subscribe key and the uuid. *)
Definition getURL (subscribeKey : JsVal) (params : GetMembershipsParams)
  : string :=
  "/v2/objects/" +:+ to_str subscribeKey +:+ "/uuids/"
  +:+ to_str (uuid params) +:+ "/channels".

Definition isAuthSupported : bool := true.

(** The strings pushed onto [queryParams.include], in source order. *)
Definition include_flags (inc : Include) : list JsVal :=
  ((if truthy (customFields inc) then [JStr "custom"] else [])
   ++ (if truthy (customChannelFields inc) then [JStr "channel.custom"]
       else [])
   ++ (if truthy (channelFields inc) then [JStr "channel"] else []))%list.

(** One entry of [params.sort] as it is sent. *)
Definition sort_entry (entry : string * JsVal) : JsVal :=
  match snd entry with
  | JStr "asc" => JStr (fst entry +:+ ":" +:+ "asc")
  | JStr "desc" => JStr (fst entry +:+ ":" +:+ "desc")
  | _ => JStr (fst entry)
  end.

(** [prepareParams]: the query object, built field by field. *)
Definition prepareParams (params : option GetMembershipsParams) : Params :=
  let queryParams : Params := ∅ in
  let queryParams :=
    match params ≫= include with
    | Some inc => <["include" := JArr (include_flags inc)]> queryParams
    | None => queryParams
    end in
  let count :=
    match params ≫= include with
    | Some inc => totalCount inc
    | None => JUndefined
    end in
  let queryParams :=
    if truthy count then <["count" := count]> queryParams else queryParams in
  let next_page :=
    match params ≫= page with Some pg => next pg | None => JUndefined end in
  let queryParams :=
    if truthy next_page then <["start" := next_page]> queryParams
    else queryParams in
  let prev_page :=
    match params ≫= page with Some pg => prev pg | None => JUndefined end in
  let queryParams :=
    if truthy prev_page then <["end" := prev_page]> queryParams
    else queryParams in
  let queryParams :=
    if truthy (field filter params)
    then <["filter" := field filter params]> queryParams
    else queryParams in
  let queryParams :=
    <["limit" := nullish (field limit params) (JNum 100)]> queryParams in
  match params ≫= sort with
  | Some entries => <["sort" := JArr (map sort_entry entries)]> queryParams
  | None => queryParams
  end.

(** What [handleResponse] keeps of a response. *)
Record GetMembershipsResult : Type := {
  r_status : JsVal;
  r_data : JsVal;
  r_totalCount : JsVal;
  r_prev : JsVal;
  r_next : JsVal
}.

(** [response.name], [undefined] when the response has no such property. *)
Definition property (response : Params) (name : string) : JsVal :=
  default JUndefined (response !! name).

Definition handleResponse (response : Params) : GetMembershipsResult :=
  {| r_status := property response "status";
     r_data := property response "data";
     r_totalCount := property response "totalCount";
     r_prev := property response "prev";
     r_next := property response "next" |}.

(** A caller who asks for everything. *)
Definition sample_params : GetMembershipsParams :=
  {| uuid := JStr "user/1";
     include := Some {| customFields := JBool true;
                        customChannelFields := JBool false;
                        channelFields := JBool true;
                        totalCount := JBool true |};
     page := Some {| next := JStr "Mg"; prev := JUndefined |};
     filter := JStr "";
     limit := JNum 0;
     sort := Some [("updated", JStr "desc"); ("channel.name", JNull)] |}.

End GetMemberships.

(* ================================================================= *)
(** * Properties *)

Example toString_19 : toString 19 = "19".
Proof. reflexivity. Qed.

Example indexOf_pool : indexOf "http://pubsub.pubnub.com" "pubsub." = 7.
Proof. reflexivity. Qed.

Example indexOf_custom : indexOf "http://example.org" "pubsub." = -1.
Proof. reflexivity. Qed.

Example replace_pool :
  replace "http://pubsub.pubnub.com" "pubsub" "ps7" = "http://ps7.pubnub.com".
Proof. reflexivity. Qed.

Example split_head_uuid :
  split_head "-" "9f2c41aa-17b3-4d0e-8c55-0123456789ab" = "9f2c41aa".
Proof. reflexivity. Qed.

(** ** Origin rotator *)

Section Rotator.

Variable X : Externals.

Lemma nextOrigin_custom (failover : bool) (w : World) :
  is_custom (inst w) = true ->
  nextOrigin X failover w = (Normal (_providedFQDN (inst w)), w).
Proof.
  unfold is_custom, nextOrigin, bind, this; intros Hc; cbn.
  rewrite Hc; reflexivity.
Qed.

Lemma nextOrigin_advance (w : World) :
  is_custom (inst w) = false ->
  let c' := advance (_maxSubDomain (inst w)) (_currentSubDomain (inst w)) in
  nextOrigin X false w
  = (Normal (pool_origin (inst w) (toString c')), with_counter c' w).
Proof.
  unfold is_custom, nextOrigin, advance, pool_origin, bind, this, modify, when.
  intros Hp; cbn.
  rewrite Hp.
  destruct (_maxSubDomain (inst w) <=? _currentSubDomain (inst w) + 1);
    reflexivity.
Qed.

Lemma nextOrigin_failover (w : World) :
  is_custom (inst w) = false ->
  nextOrigin X true w
  = (Normal (pool_origin (inst w) (split_head "-" (generateUUID X (draws w)))),
     {| inst := inst w; trace := trace w; draws := S (draws w) |}).
Proof.
  unfold is_custom, nextOrigin, pool_origin, bind, this, draw.
  intros Hp; cbn.
  rewrite Hp; reflexivity.
Qed.

Lemma advance_range (m c : Z) :
  2 <= m -> 0 <= c < m -> 1 <= advance m c < m.
Proof. unfold advance; intros; destruct (Z.leb_spec m (c + 1)); lia. Qed.

Lemma advance_mod (m c j : Z) :
  2 <= m -> 0 <= c < m -> 0 <= j ->
  (advance m c + j) mod (m - 1) = (c + 1 + j) mod (m - 1).
Proof.
  unfold advance; intros Hm Hc Hj.
  destruct (Z.leb_spec m (c + 1)); [|reflexivity].
  assert (c = m - 1) as -> by lia.
  replace (m - 1 + 1 + j) with (1 + j + 1 * (m - 1)) by lia.
  rewrite Z.mod_add by lia; reflexivity.
Qed.

Lemma rotate_pool (m : Z) (k : nat) :
  2 <= m ->
  forall w : World,
    is_custom (inst w) = false ->
    _maxSubDomain (inst w) = m ->
    0 <= _currentSubDomain (inst w) < m ->
    let c' := (_currentSubDomain (inst w) + Z.of_nat k) mod (m - 1) + 1 in
    rotate X (S k) w
    = (Normal (pool_origin (inst w) (toString c')), with_counter c' w).
Proof.
  intros Hm; induction k as [|k IH]; intros w Hp Hmax Hc c'.
  - change (rotate X 1 w) with (nextOrigin X false w).
    rewrite nextOrigin_advance by assumption; cbn zeta.
    assert (advance (_maxSubDomain (inst w)) (_currentSubDomain (inst w)) = c')
      as ->; [|reflexivity].
    subst c'; rewrite Hmax; unfold advance.
    rewrite Z.add_0_r.
    destruct (Z.leb_spec m (_currentSubDomain (inst w) + 1)).
    + replace (_currentSubDomain (inst w)) with (0 + 1 * (m - 1)) by lia.
      rewrite Z.mod_add by lia. rewrite Z.mod_0_l by lia. reflexivity.
    + rewrite Z.mod_small by lia. reflexivity.
  - change (rotate X (S (S k)) w)
      with (bind (nextOrigin X false) (fun _ => rotate X (S k)) w).
    unfold bind. rewrite nextOrigin_advance by assumption; cbn zeta.
    set (c1 := advance (_maxSubDomain (inst w)) (_currentSubDomain (inst w))).
    assert (1 <= c1 < m) as Hc1
        by (subst c1; rewrite Hmax; apply advance_range; lia).
    rewrite IH; cbn; try assumption; try lia.
    assert ((c1 + Z.of_nat k) mod (m - 1)
            = (_currentSubDomain (inst w) + Z.of_nat (S k)) mod (m - 1))
      as Heq.
    { subst c1; rewrite Hmax, advance_mod by lia. f_equal; lia. }
    rewrite Heq; reflexivity.
Qed.

(** Construction draws the counter in [0, 20) and resolves both origins
    with two normal advances, so on a pool base the first request already
    sees a counter in [1, 19]. *)
Lemma constructor_counter (config : Config) (keychain : Keychain)
    (sendBeacon : option (string -> bool)) (ssl : bool) (origin : string)
    (r : Z) :
  0 <= r < 20 ->
  let w := constructor X config keychain sendBeacon ssl origin r in
  is_custom (inst w) = false ->
  _currentSubDomain (inst w) = (r + 1) mod 19 + 1
  /\ _maxSubDomain (inst w) = 20
  /\ _standardOrigin (inst w) = pool_origin (inst w) (toString (r mod 19 + 1))
  /\ _subscribeOrigin (inst w)
     = pool_origin (inst w) (toString ((r + 1) mod 19 + 1)).
Proof.
  intros Hr w. subst w. unfold constructor, after.
  set (w0 := {| inst := _; trace := []; draws := 0 |}).
  destruct (is_custom (inst w0)) eqn:Hc.
  - unfold shiftStandardOrigin, shiftSubscribeOrigin, bind.
    rewrite nextOrigin_custom by assumption.
    unfold modify, ret; cbn [fst snd].
    rewrite nextOrigin_custom by exact Hc.
    subst w0; unfold is_custom in *; cbn in *. congruence.
  - intros _.
    unfold shiftStandardOrigin, shiftSubscribeOrigin, bind.
    rewrite nextOrigin_advance by assumption; cbn zeta.
    unfold modify, ret; cbn [fst snd].
    rewrite nextOrigin_advance by exact Hc.
    cbn. unfold pool_origin; cbn.
    assert (advance 20 r = r mod 19 + 1) as ->
        by (unfold advance; destruct (Z.leb_spec 20 (r + 1));
            Z.div_mod_to_equations; lia).
    assert (advance 20 (r mod 19 + 1) = (r + 1) mod 19 + 1) as ->
        by (unfold advance; destruct (Z.leb_spec 20 (r mod 19 + 1 + 1));
            Z.div_mod_to_equations; lia).
    repeat split.
Qed.

End Rotator.

(** C3. On a pool origin with pool size 20 and a starting counter [c] in
    [0, 20), [k >= 1] successive calls of [nextOrigin(false)] leave the
    counter at [(c + k - 1) mod (poolSize - 1) + 1]; that counter is what
    the last call substitutes into the template, and it is never 0. *)
Theorem round_robin_counter (X : Externals) (w : World) (k : nat) :
  is_custom (inst w) = false ->
  _maxSubDomain (inst w) = 20 ->
  0 <= _currentSubDomain (inst w) < 20 ->
  (1 <= k)%nat ->
  let c := _currentSubDomain (inst w) in
  let c' := (c + Z.of_nat k - 1) mod (_maxSubDomain (inst w) - 1) + 1 in
  _currentSubDomain (inst (after (rotate X k) w)) = c'
  /\ rotate X k w
     = (Normal (pool_origin (inst w) (toString c')), with_counter c' w)
  /\ c' <> 0.
Proof.
  intros Hp Hmax Hc Hk c c'.
  destruct k as [|k]; [lia|].
  assert (c' = (c + Z.of_nat k) mod (20 - 1) + 1) as Hc'.
  { subst c'; rewrite Hmax; do 2 f_equal; lia. }
  assert (rotate X (S k) w
          = (Normal (pool_origin (inst w) (toString c')), with_counter c' w))
    as Hrun.
  { rewrite Hc'. apply (rotate_pool X 20 k); [lia|assumption..]. }
  split; [|split].
  - unfold after; rewrite Hrun; reflexivity.
  - exact Hrun.
  - rewrite Hc'.
    pose proof (Z.mod_pos_bound (c + Z.of_nat k) (20 - 1)); lia.
Qed.

(** From the sample instance (counter 9), 25 advances end at 15. *)
Lemma round_robin_counter_witness :
  _currentSubDomain (inst (after (rotate (sample_externals unreachable) 25)
                                 sample_world)) = 15.
Proof.
  refine (proj1 (round_robin_counter (sample_externals unreachable)
                   sample_world 25 _ _ _ _));
    [reflexivity | reflexivity | change (0 <= 9 < 20); lia | lia].
Defined.

(** C4. On a literal custom origin [nextOrigin] is the identity, whatever
    [failover] is: it returns the provided origin unchanged and leaves the
    whole state as it was. *)
Theorem custom_origin_identity (X : Externals) (w : World) (failover : bool) :
  is_custom (inst w) = true ->
  nextOrigin X failover w = (Normal (_providedFQDN (inst w)), w).
Proof. apply nextOrigin_custom. Qed.

(** The instance on [relay.example.org], with and without failover. *)
Lemma custom_origin_identity_witness :
  nextOrigin (sample_externals unreachable) true custom_world
  = (Normal "https://relay.example.org", custom_world)
  /\ nextOrigin (sample_externals unreachable) false custom_world
     = (Normal "https://relay.example.org", custom_world).
Proof.
  split;
    apply (custom_origin_identity (sample_externals unreachable) custom_world);
    reflexivity.
Defined.

(** C10. On a pool origin [nextOrigin(true)] substitutes the first run of
    a fresh random identifier and leaves the instance, its subdomain
    counter included, untouched: a later [nextOrigin(false)] returns the
    origin and reaches the counter it would have without the failover
    call. *)
Theorem failover_keeps_counter (X : Externals) (w : World) :
  is_custom (inst w) = false ->
  let w1 := after (nextOrigin X true) w in
  outcome (nextOrigin X true) w
  = Normal (pool_origin (inst w) (split_head "-" (generateUUID X (draws w))))
  /\ inst w1 = inst w
  /\ _currentSubDomain (inst w1) = _currentSubDomain (inst w)
  /\ outcome (nextOrigin X false) w1 = outcome (nextOrigin X false) w
  /\ inst (after (nextOrigin X false) w1) = inst (after (nextOrigin X false) w).
Proof.
  intros Hp w1.
  assert (inst w1 = inst w) as Hinst
      by (subst w1; unfold after; rewrite nextOrigin_failover by assumption;
          reflexivity).
  repeat split.
  - unfold outcome; rewrite nextOrigin_failover by assumption; reflexivity.
  - exact Hinst.
  - rewrite Hinst; reflexivity.
  - unfold outcome; rewrite !nextOrigin_advance by (rewrite ?Hinst; assumption).
    cbn; rewrite Hinst; reflexivity.
  - unfold after; rewrite !nextOrigin_advance by (rewrite ?Hinst; assumption).
    cbn; rewrite Hinst; reflexivity.
Qed.

(** A failover on the sample instance: the counter stays at 9. *)
Lemma failover_keeps_counter_witness :
  outcome (nextOrigin (sample_externals unreachable) true) sample_world
  = Normal "http://ps9f2c41aa.pubnub.com"
  /\ _currentSubDomain
       (inst (after (nextOrigin (sample_externals unreachable) true)
                    sample_world)) = 9.
Proof.
  pose proof (failover_keeps_counter (sample_externals unreachable)
                sample_world) as H.
  destruct H as (Hout & _ & Hcounter & _); [reflexivity|].
  split; [exact Hout | exact Hcounter].
Defined.

(** ** Parameter composer *)

(** The names every plain object inherits, one by one. *)
Lemma inherited_In (k : string) :
  inherited k = true
  <-> In k ["constructor"; "hasOwnProperty"; "isPrototypeOf";
            "propertyIsEnumerable"; "toLocaleString"; "toString"; "valueOf";
            "__proto__"; "__defineGetter__"; "__defineSetter__";
            "__lookupGetter__"; "__lookupSetter__"].
Proof.
  unfold inherited. rewrite existsb_exists. split.
  - intros (x & Hx & Heq). apply String.eqb_eq in Heq. by subst.
  - intros H. exists k. split; [exact H|apply String.eqb_refl].
Qed.

Lemma inherited_not_In (k : string) :
  inherited k = false
  <-> ~ In k ["constructor"; "hasOwnProperty"; "isPrototypeOf";
              "propertyIsEnumerable"; "toLocaleString"; "toString"; "valueOf";
              "__proto__"; "__defineGetter__"; "__defineSetter__";
              "__lookupGetter__"; "__lookupSetter__"].
Proof.
  rewrite <- inherited_In. by destruct (inherited k).
Qed.

Lemma copied_lookup (core : Params) (k : string) :
  copied core !! k = if inherited k then None else core !! k.
Proof.
  unfold copied. rewrite map_lookup_filter.
  destruct (core !! k) as [v|]; cbn; [|by destruct (inherited k)].
  destruct (inherited k) eqn:Hk; cbn.
  - rewrite option_guard_False; [reflexivity|]. congruence.
  - by rewrite option_guard_True.
Qed.

(** The loop over the core parameters is a left-biased union with the
    core parameters that can be copied. *)
Lemma core_fold_union (data core : Params) :
  map_fold
    (fun key value data =>
       if negb (has_property data key) then <[key := value]> data
       else data)
    data core
  = data ∪ copied core.
Proof.
  apply (map_fold_weak_ind (fun r m => r = data ∪ copied m)).
  - unfold copied. rewrite map_filter_empty.
    symmetry. apply (right_id_L ∅ (∪)).
  - intros i x m r Hm ->.
    assert (copied m !! i = None) as Hc
        by (rewrite copied_lookup, Hm; by destruct (inherited i)).
    unfold has_property. rewrite lookup_union, Hc.
    apply map_eq; intros j.
    destruct (data !! i) as [y|] eqn:Hd; cbn.
    + rewrite !lookup_union, !copied_lookup.
      destruct (decide (i = j)) as [<-|Hne].
      * rewrite Hd, Hm, lookup_insert_eq. by destruct (inherited i).
      * by rewrite lookup_insert_ne.
    + destruct (inherited i) eqn:Hi; cbn.
      * rewrite !lookup_union, !copied_lookup.
        destruct (decide (i = j)) as [<-|Hne].
        -- by rewrite Hi.
        -- by rewrite lookup_insert_ne.
      * destruct (decide (i = j)) as [<-|Hne].
        -- rewrite lookup_insert_eq, lookup_union, Hd, copied_lookup, Hi.
           by rewrite lookup_insert_eq.
        -- rewrite lookup_insert_ne by assumption.
           rewrite !lookup_union, !copied_lookup.
           by rewrite lookup_insert_ne.
Qed.

Lemma prepareParams_union (st : Networking) (data : option Params) :
  prepareParams st data
  = let merged := default ∅ data ∪ copied (_coreParams st) in
    if isInstanceIdEnabled (_config st)
    then <["instanceid" := of_key (getInstanceId (_keychain st))]> merged
    else merged.
Proof. unfold prepareParams; cbn zeta. by rewrite core_fold_union. Qed.

(** The composed mapping, key by key. *)
Lemma prepareParams_lookup (st : Networking) (data : option Params)
    (k : string) :
  prepareParams st data !! k
  = if isInstanceIdEnabled (_config st) && String.eqb k "instanceid"
    then Some (of_key (getInstanceId (_keychain st)))
    else match default ∅ data !! k with
         | Some mine => Some mine
         | None => if inherited k then None else _coreParams st !! k
         end.
Proof.
  rewrite prepareParams_union; cbn zeta.
  destruct (isInstanceIdEnabled (_config st)); cbn [andb].
  - destruct (String.eqb_spec k "instanceid") as [->|Hne].
    + apply lookup_insert_eq.
    + rewrite lookup_insert_ne by congruence.
      rewrite lookup_union, copied_lookup.
      by destruct (default ∅ data !! k), (inherited k),
        (_coreParams st !! k).
  - rewrite lookup_union, copied_lookup.
    by destruct (default ∅ data !! k), (inherited k), (_coreParams st !! k).
Qed.

Lemma prepareParams_absent (st : Networking) :
  prepareParams st None = prepareParams st (Some ∅).
Proof. reflexivity. Qed.

(** An instance with the instance-identity flag on, and a caller who
    passes an [instanceid] of their own. *)
Example caller_instanceid_run :
  prepareParams
    (set_coreParams {["pnsdk" := JStr "js"]}
       (inst identified_world))
    (Some {["instanceid" := JStr "mine"]})
  !! "instanceid" = Some (JStr "inst-1").
Proof. reflexivity. Qed.

(** A core parameter under a name that every object inherits is not
    copied: [key in data] holds for it before anything is copied. *)
Example inherited_name_run :
  prepareParams
    (set_coreParams {["pnsdk" := JStr "js"; "constructor" := JStr "x"]}
       (inst sample_world))
    (Some {["channel" := JStr "lobby"]})
  = {["channel" := JStr "lobby"; "pnsdk" := JStr "js"]}.
Proof. vm_compute. reflexivity. Qed.

(** C5, as stated, fails: with the instance-identity flag enabled the
    composed mapping does not keep the caller's own [instanceid]. *)
Lemma compose_overwrites_instanceid :
  ~ (forall (st : Networking) (P : Params) (k : string) (v : JsVal),
        P !! k = Some v -> prepareParams st (Some P) !! k = Some v).
Proof.
  intros H.
  specialize
    (H (inst identified_world) {["instanceid" := JStr "mine"]}
       "instanceid" (JStr "mine") eq_refl).
  vm_compute in H. discriminate H.
Qed.

(** C5, amended. For call parameters [P] and core parameters [C], the
    mapping [prepareParams(P)] returns holds every key of [P] with [P]'s
    value and every key of [C] that [P] lacks with [C]'s value, and nothing
    else, so no key of [C] overwrites one of [P]. There are two exceptions.
    The key [instanceid], when the instance-identity flag is enabled, holds
    the keychain's instance id whatever [P] and [C] say. And a key of [C]
    that names a property every object inherits ([constructor],
    [toString], ...) is never copied, since the test [key in data] of line
    84 finds it in any [P]. *)
Theorem compose_precedence (st : Networking) (P : Params) (k : string) :
  let C := _coreParams st in
  let R := prepareParams st (Some P) in
  let injected :=
    isInstanceIdEnabled (_config st) && String.eqb k "instanceid" in
  let on_every_object :=
    In k ["constructor"; "hasOwnProperty"; "isPrototypeOf";
          "propertyIsEnumerable"; "toLocaleString"; "toString"; "valueOf";
          "__proto__"; "__defineGetter__"; "__defineSetter__";
          "__lookupGetter__"; "__lookupSetter__"] in
  (injected = true ->
     R !! k = Some (of_key (getInstanceId (_keychain st))))
  /\ (injected = false ->
      (forall v, P !! k = Some v -> R !! k = Some v)
      /\ (forall v, P !! k = None -> C !! k = Some v ->
            ~ on_every_object -> R !! k = Some v)
      /\ (P !! k = None -> on_every_object -> R !! k = None)
      /\ (P !! k = None -> C !! k = None -> R !! k = None)).
Proof.
  intros C R injected on_every_object; subst C R injected on_every_object.
  rewrite prepareParams_lookup. change (default ∅ (Some P)) with P.
  destruct (isInstanceIdEnabled (_config st) && String.eqb k "instanceid").
  - split; [reflexivity|discriminate].
  - split; [discriminate|]. intros _. repeat split.
    + by intros v ->.
    + intros v -> -> Hk. apply inherited_not_In in Hk. by rewrite Hk.
    + intros -> Hk. apply inherited_In in Hk. by rewrite Hk.
    + intros -> ->. by destruct (inherited k).
Qed.

(** ** Dispatch and response handling *)

Section Dispatch.

Variable X : Externals.

Lemma extend_extend (w : World) (evs evs' : list Event) :
  extend (extend w evs) evs' = extend w (evs ++ evs')%list.
Proof. unfold extend; cbn. by rewrite <- app_assoc. Qed.

Lemma invoke_user (err result : JsVal) (w : World) :
  invoke UserCallback err result w = (Normal tt, extend w [Called err result]).
Proof. reflexivity. Qed.

Lemma events_of_trace {A} (c : M A) (w : World) (evs : list Event) :
  trace (after c w) = (trace w ++ evs)%list -> events_of c w = evs.
Proof. unfold events_of; intros ->. apply drop_app_length. Qed.

(** The handler, case by case. *)
Lemma abstractedXDR_run (m : Method) (url : string) (t : Z) (data : Params)
    (w : World) :
  let sent := Sent m url t data in
  let err := fst (transport X m url t data) in
  let resp := snd (transport X m url t data) in
  _abstractedXDR X m url t data UserCallback w
  = if truthy err then (Normal tt, extend w [sent; Called err JNull])
    else if truthy (resp_error resp)
    then (Normal tt, extend w [sent; Called (resp_error resp) JNull])
    else match JSON_parse X (resp_text resp) with
         | Some parsed => (Normal tt, extend w [sent; Called JNull parsed])
         | None => (Throw (SyntaxError (resp_text resp)), extend w [sent])
         end.
Proof.
  unfold _abstractedXDR, bind, emit; cbn.
  destruct (transport X m url t data) as [err resp]; cbn.
  destruct (truthy err);
    [|destruct (truthy (resp_error resp));
      [|destruct (JSON_parse X (resp_text resp))]];
    unfold extend, invoke, emit, throw; cbn; rewrite <- ?app_assoc;
    reflexivity.
Qed.

(** A normal advance always returns, adds no event and leaves the
    collaborators of the instance alone. *)
Lemma nextOrigin_false_returns (w : World) :
  exists origin c,
    nextOrigin X false w = (Normal origin, with_counter c w).
Proof.
  destruct (is_custom (inst w)) eqn:Hc.
  - exists (_providedFQDN (inst w)), (_currentSubDomain (inst w)).
    rewrite nextOrigin_custom by assumption.
    destruct w as [[] ? ?]; reflexivity.
  - do 2 eexists. by apply nextOrigin_advance.
Qed.

End Dispatch.

(** The leave operation on the beacon path, the beacon refused: the run
    ends, and the callback was never invoked. *)
Example leave_refused_run :
  perform (sample_externals (answering "[]")) (PerformLeave "lobby" None)
    UserCallback beacon_world
  = (Normal tt,
     extend (with_counter 10 beacon_world)
       [Beacon "http://ps10.pubnub.com/v2/presence/sub_key/sub-c-1/channel/lobby/leave?uuid=user-1"]).
Proof. reflexivity. Qed.

(** C7, as stated, fails: the leave operation on the beacon path, with
    the beacon refused by the user agent, reaches its end without a single
    invocation of the completion callback. *)
Lemma leave_refused_never_completes :
  outcome (perform (sample_externals (answering "[]"))
             (PerformLeave "lobby" None) UserCallback) beacon_world
  = Normal tt
  /\ completions
       (events_of (perform (sample_externals (answering "[]"))
                     (PerformLeave "lobby" None) UserCallback) beacon_world)
     = 0%nat.
Proof. split; reflexivity. Qed.

(** A body that is not JSON: the parser's exception escapes the handler
    and the callback is not invoked. *)
Example unparsable_run :
  fetchTime (sample_externals (answering "<html>")) UserCallback sample_world
  = (Throw (SyntaxError "<html>"),
     extend sample_world
       [Sent GET "http://ps8.pubnub.com/time/0" 15000 {["uuid" := JStr "user-1"]}]).
Proof. reflexivity. Qed.

(** C8, as stated, fails: the transport succeeds, the body does not parse,
    and nothing is reported to the completion callback; the exception is
    raised out of the handler. *)
Lemma unparsable_body_not_reported :
  outcome (fetchTime (sample_externals (answering "<html>")) UserCallback)
    sample_world
  = Throw (SyntaxError "<html>")
  /\ completions
       (events_of (fetchTime (sample_externals (answering "<html>"))
                     UserCallback) sample_world)
     = 0%nat.
Proof. split; reflexivity. Qed.

(** C8, amended. For every dispatched request whose transport invocation
    succeeds (no transport error, no error on the response) but whose body
    fails to parse, the response handler raises the parser's exception and
    invokes no callback: the only event of the run is the request itself,
    and no malformed-response error is built. *)
Theorem unparsable_body_raises (X : Externals) (m : Method) (url : string)
    (t : Z) (data : Params) (callback : Callback) (w : World) :
  truthy (fst (transport X m url t data)) = false ->
  truthy (resp_error (snd (transport X m url t data))) = false ->
  JSON_parse X (resp_text (snd (transport X m url t data))) = None ->
  _abstractedXDR X m url t data callback w
  = (Throw (SyntaxError (resp_text (snd (transport X m url t data)))),
     extend w [Sent m url t data]).
Proof.
  unfold _abstractedXDR, bind, emit; cbn.
  destruct (transport X m url t data) as [err resp]; cbn.
  by intros -> -> ->.
Qed.

(** The time request answered with an HTML page. *)
Lemma unparsable_body_raises_witness :
  _abstractedXDR (sample_externals (answering "<html>")) GET
    "http://ps8.pubnub.com/time/0" 15000 ∅ UserCallback sample_world
  = (Throw (SyntaxError "<html>"),
     extend sample_world [Sent GET "http://ps8.pubnub.com/time/0" 15000 ∅]).
Proof.
  apply (unparsable_body_raises (sample_externals (answering "<html>")) GET
           "http://ps8.pubnub.com/time/0" 15000 ∅ UserCallback sample_world);
    reflexivity.
Defined.

(** ** Path segments *)

(** History, leave and where-now put the encoded identifier in the path. *)
Example history_encodes :
  sent_urls
    (events_of (fetchHistory (sample_externals (answering "[]")) "a/b" None
                  UserCallback) sample_world)
  = ["http://ps8.pubnub.com/v2/history/sub-key/sub-c-1/channel/a%2Fb"].
Proof. reflexivity. Qed.

Example leave_encodes :
  sent_urls
    (events_of (performLeave (sample_externals (answering "[]")) "a/b" None
                  UserCallback) sample_world)
  = ["http://ps10.pubnub.com/v2/presence/sub_key/sub-c-1/channel/a%2Fb/leave"].
Proof. reflexivity. Qed.

Example where_now_encodes :
  sent_urls
    (events_of (fetchWhereNow (sample_externals (answering "[]"))
                  (Some "u/1") UserCallback) sample_world)
  = ["http://ps8.pubnub.com/v2/presence/sub-key/sub-c-1/uuid/u%2F1"].
Proof. reflexivity. Qed.

(** C9, on the code: set-state and fetch-state never call the encoder.
    Whatever function stands for [utils.encode], they behave the same, and
    for the channel [a/b] and the uuid [u/1] the path carries the raw
    identifiers, where the encoded segments are [a%2Fb] and [u%2F1]. *)
Theorem state_paths_not_encoded :
  (forall (X : Externals) (f : string -> string) (channel : string)
          (uuid : option string) (data : option Params)
          (callback : Callback) (w : World),
      setState (with_encode f X) channel data callback w
      = setState X channel data callback w
      /\ fetchState (with_encode f X) uuid channel data callback w
         = fetchState X uuid channel data callback w)
  /\ sent_urls
       (events_of (setState (sample_externals (answering "[]")) "a/b" None
                     UserCallback) sample_world)
     = ["http://ps8.pubnub.com/v2/presence/sub-key/sub-c-1/channel/a/b/uuid/user-1/data"]
  /\ sent_urls
       (events_of (fetchState (sample_externals (answering "[]"))
                     (Some "u/1") "a/b" None UserCallback) sample_world)
     = ["http://ps8.pubnub.com/v2/presence/sub-key/sub-c-1/channel/a/b/uuid/u/1"]
  /\ percent_encode "a/b" = "a%2Fb"
  /\ percent_encode "u/1" = "u%2F1".
Proof.
  split; [|repeat split; reflexivity].
  intros X f channel uuid data callback w; split; reflexivity.
Qed.

(** ** Access-control operations *)

Lemma replace_all_base64url (s : string) :
  replace_all "/" "_" (replace_all "+" "-" s) = base64url s.
Proof.
  induction s as [|c s IH]; [reflexivity|].
  cbn [replace_all base64url]; rewrite IH; f_equal.
  destruct (Ascii.eqb_spec c "+") as [->|Hplus]; [reflexivity|].
  reflexivity.
Qed.

Lemma append_assoc (a b c : string) : (a +:+ b) +:+ c = a +:+ (b +:+ c).
Proof.
  induction a as [|x a IH]; [reflexivity|].
  change (String x ((a +:+ b) +:+ c) = String x (a +:+ (b +:+ c))).
  f_equal; exact IH.
Qed.

Lemma base64url_length (s : string) :
  String.length (base64url s) = String.length s.
Proof. induction s as [|c s IH]; cbn; [reflexivity|by rewrite IH]. Qed.

(** Where the names the class leaves unbound are supplied, the grant
    operation dispatches one request whose [signature] is the URL-safe
    digest of prefix and canonical string, keyed with the secret key. *)
Lemma performGrant_supplied (X : Externals) (U : Unbound)
    (prep : option Params -> Params) (hmac : string -> string -> string)
    (auth_key authKey : JsVal) (data : option Params) (callback : Callback)
    (w : World) :
  this_networking_prepareParams U = Some prep ->
  this_hmac_SHA256 U = Some hmac ->
  globals U !! "auth_key" = Some auth_key ->
  missing (getSubscribeKey (_keychain (inst w))) = false ->
  missing (getPublishKey (_keychain (inst w))) = false ->
  missing (getSecretKey (_keychain (inst w))) = false ->
  let kc := _keychain (inst w) in
  let composed :=
    if truthy auth_key then prep data else delete "auth" (prep data) in
  performGrant X U authKey data callback w
  = _xdr X
      (<["signature" := JStr (grant_signature X hmac kc composed)]> composed)
      [JStr (getStandardOrigin (inst w)); JStr "v1"; JStr "auth"; JStr "grant";
       JStr "sub-key"; of_key (getSubscribeKey kc)]
      None callback w.
Proof.
  intros Hprep Hhmac Hak Hsub Hpub Hsec kc composed.
  unfold performGrant, bind, this; cbv beta iota zeta.
  rewrite Hsub, Hpub, Hsec.
  unfold _networking_prepareParams, identifier, _hmac_SHA256, ret.
  rewrite Hprep, Hak, Hhmac.
  unfold grant_signature, grant_sign_input; subst composed kc.
  rewrite replace_all_base64url.
  destruct (truthy auth_key); cbn [negb]; rewrite !append_assoc;
    reflexivity.
Qed.

(** Without a global named [auth_key] the grant operation changes nothing
    and sends nothing, whatever members are patched onto the instance; the
    audit operation needs a global [args] in the same way. *)
Lemma performGrant_needs_global (X : Externals) (U : Unbound)
    (authKey : JsVal) (data : option Params) (callback : Callback)
    (w : World) :
  globals U !! "auth_key" = None ->
  after (performGrant X U authKey data callback) w = w
  /\ (missing (getSubscribeKey (_keychain (inst w))) = false ->
      missing (getPublishKey (_keychain (inst w))) = false ->
      missing (getSecretKey (_keychain (inst w))) = false ->
      exists e, outcome (performGrant X U authKey data callback) w = Throw e).
Proof.
  intros Hg.
  unfold after, outcome, performGrant, bind, this; cbv beta iota zeta.
  unfold _error, _networking_prepareParams, identifier; rewrite Hg.
  split.
  - destruct (missing (getSubscribeKey _));
      [by destruct (this_error U)|].
    destruct (missing (getPublishKey _));
      [by destruct (this_error U)|].
    destruct (missing (getSecretKey _));
      [by destruct (this_error U)|].
    by destruct (this_networking_prepareParams U).
  - intros -> -> ->.
    destruct (this_networking_prepareParams U); by eexists.
Qed.

Lemma performAudit_needs_global (X : Externals) (U : Unbound)
    (authKey : JsVal) (data : option Params) (callback : Callback)
    (w : World) :
  globals U !! "args" = None ->
  performAudit X U authKey data callback w
  = (Throw (ReferenceError "args"), w).
Proof.
  intros Hg. unfold performAudit, bind, identifier. by rewrite Hg.
Qed.

(** C1, on the code: as the class is written the grant operation raises
    on every input, before any request is made, so no signature is ever
    attached to outgoing parameters. *)
Theorem grant_as_written_never_signs (X : Externals) (authKey : JsVal)
    (data : option Params) (callback : Callback) (w : World) :
  exists e,
    performGrant X as_written authKey data callback w = (Throw e, w).
Proof.
  unfold performGrant, bind, this; cbv beta iota zeta.
  destruct (missing (getSubscribeKey _)); [by eexists|].
  destruct (missing (getPublishKey _)); [by eexists|].
  destruct (missing (getSecretKey _)); by eexists.
Qed.

(** C2, on the code: as the class is written the audit operation raises a
    [ReferenceError] on its first statement, before it looks at the
    keychain, whichever keys are present; the grant operation, with a key
    absent, raises a [TypeError] at the call of [this._error]. Neither
    hands a validation error to anyone. *)
Theorem audit_as_written_raises (X : Externals) (authKey : JsVal)
    (data : option Params) (callback : Callback) (w : World) :
  performAudit X as_written authKey data callback w
  = (Throw (ReferenceError "args"), w)
  /\ (missing (getSecretKey (_keychain (inst w))) = true ->
      exists e,
        performGrant X as_written authKey data callback w
        = (Throw (TypeError e), w)).
Proof.
  split; [reflexivity|].
  intros Hsec. unfold performGrant, bind, this; cbv beta iota zeta.
  rewrite Hsec.
  destruct (missing (getSubscribeKey _)); [by eexists|].
  destruct (missing (getPublishKey _)); by eexists.
Qed.

(** C6, on the code: with all three keys present, no auth key supplied
    and empty parameters, the grant operation raises. As written it stops
    at [this._networking]; with the three missing members supplied it
    stops at the undeclared [auth_key]; the audit operation stops at the
    undeclared [args] either way. *)
Theorem grant_without_auth_key_raises :
  performGrant (sample_externals (answering "[]")) as_written
    JUndefined (Some ∅) UserCallback sample_world
  = (Throw (TypeError "Cannot read property prepareParams"), sample_world)
  /\ performGrant (sample_externals (answering "[]"))
       (supplied (inst sample_world) ∅)
       JUndefined (Some ∅) UserCallback sample_world
     = (Throw (ReferenceError "auth_key"), sample_world)
  /\ performAudit (sample_externals (answering "[]"))
       (supplied (inst sample_world) ∅)
       JUndefined (Some ∅) UserCallback sample_world
     = (Throw (ReferenceError "args"), sample_world).
Proof. repeat split; reflexivity. Qed.

(** With a global [auth_key] in scope (here [undefined]) and the members
    supplied, the operation goes through and signs a mapping without
    [auth]. *)
Example grant_supplied_run :
  events_of
    (performGrant (sample_externals (answering "[]"))
       (supplied (inst sample_world) {["auth_key" := JUndefined]})
       JUndefined (Some {["auth" := JStr ""; "ttl" := JNum 5]}) UserCallback)
    sample_world
  = [Sent GET "http://ps8.pubnub.com/v1/auth/grant/sub-key/sub-c-1" 15000
       {["ttl" := JNum 5; "signature" := JStr "q-7_34_A-="]};
     Called JNull (JArr [])].
Proof. reflexivity. Qed.

(* ================================================================= *)
(** * Further properties of the class *)

(** ** Construction and rotation *)

Lemma nextOrigin_returns (X : Externals) (failover : bool) (w : World) :
  exists origin c n,
    nextOrigin X failover w
    = (Normal origin,
       {| inst := set_currentSubDomain c (inst w);
          trace := trace w; draws := n |})
    /\ (draws w <= n)%nat
    /\ (is_custom (inst w) = true ->
        origin = _providedFQDN (inst w)
        /\ c = _currentSubDomain (inst w) /\ n = draws w)
    /\ (is_custom (inst w) = false ->
        if failover
        then c = _currentSubDomain (inst w) /\ n = S (draws w)
             /\ origin
                = pool_origin (inst w)
                    (split_head "-" (generateUUID X (draws w)))
        else c = advance (_maxSubDomain (inst w)) (_currentSubDomain (inst w))
             /\ n = draws w
             /\ origin = pool_origin (inst w) (toString c)).
Proof.
  destruct (is_custom (inst w)) eqn:Hc.
  - exists (_providedFQDN (inst w)), (_currentSubDomain (inst w)), (draws w).
    rewrite nextOrigin_custom by assumption.
    split; [by destruct w as [[] ? ?]|].
    split; [lia|]. split; [done|discriminate].
  - destruct failover.
    + exists (pool_origin (inst w) (split_head "-" (generateUUID X (draws w)))),
        (_currentSubDomain (inst w)), (S (draws w)).
      rewrite nextOrigin_failover by assumption.
      split; [by destruct w as [[] ? ?]|].
      split; [lia|]. split; [discriminate|done].
    + eexists _, _, (draws w).
      rewrite nextOrigin_advance by assumption.
      split; [reflexivity|]. split; [lia|]. split; [discriminate|done].
Qed.

(** The constructor (lines 48-66). With the random draw [r] in [0, 20),
    construction leaves no event and no core parameter; on a literal
    custom base both cached origins are the base itself and the counter is
    the draw; on a pool base the standard origin gets subdomain
    [r mod 19 + 1], the subscribe origin the next one, and the two
    differ. *)
Theorem construction_resolves_origins (X : Externals) (config : Config)
    (keychain : Keychain) (sendBeacon : option (string -> bool))
    (ssl : bool) (origin : string) (r : Z) :
  0 <= r < 20 ->
  let w := constructor X config keychain sendBeacon ssl origin r in
  let st := inst w in
  trace w = [] /\ draws w = 0%nat /\ _coreParams st = ∅
  /\ _maxSubDomain st = 20
  /\ _providedFQDN st = (if ssl then "https://" else "http://") +:+ origin
  /\ (if is_custom st
      then _currentSubDomain st = r
           /\ getStandardOrigin st = _providedFQDN st
           /\ getSubscribeOrigin st = _providedFQDN st
      else _currentSubDomain st = (r + 1) mod 19 + 1
           /\ getStandardOrigin st = pool_origin st (toString (r mod 19 + 1))
           /\ getSubscribeOrigin st
              = pool_origin st (toString ((r + 1) mod 19 + 1))
           /\ r mod 19 + 1 <> (r + 1) mod 19 + 1).
Proof.
  intros Hr w st. subst st w. unfold constructor, after.
  set (w0 := {| inst := _; trace := []; draws := 0 |}).
  unfold shiftStandardOrigin, shiftSubscribeOrigin, bind.
  destruct (is_custom (inst w0)) eqn:Hc.
  - rewrite nextOrigin_custom by assumption.
    unfold modify, ret; cbn [fst snd].
    rewrite nextOrigin_custom by exact Hc.
    subst w0; unfold is_custom in *; cbn in *. rewrite Hc.
    repeat split.
  - rewrite nextOrigin_advance by assumption; cbn zeta.
    unfold modify, ret; cbn [fst snd].
    rewrite nextOrigin_advance by exact Hc.
    subst w0; unfold is_custom in *; cbn in *. rewrite Hc.
    unfold pool_origin, getStandardOrigin, getSubscribeOrigin; cbn.
    assert (advance 20 r = r mod 19 + 1) as ->
        by (unfold advance; destruct (Z.leb_spec 20 (r + 1));
            Z.div_mod_to_equations; lia).
    assert (advance 20 (r mod 19 + 1) = (r + 1) mod 19 + 1) as ->
        by (unfold advance; destruct (Z.leb_spec 20 (r mod 19 + 1 + 1));
            Z.div_mod_to_equations; lia).
    repeat split. Z.div_mod_to_equations; lia.
Qed.

(** Constructed with draw 18 on the default origin: subdomains 19 and 1. *)
Lemma construction_resolves_origins_witness :
  getStandardOrigin
    (inst (constructor (sample_externals unreachable) sample_config
             sample_keychain None false "pubsub.pubnub.com" 18))
  = "http://ps19.pubnub.com"
  /\ getSubscribeOrigin
       (inst (constructor (sample_externals unreachable) sample_config
                sample_keychain None false "pubsub.pubnub.com" 18))
     = "http://ps1.pubnub.com".
Proof.
  pose proof (construction_resolves_origins (sample_externals unreachable)
                sample_config sample_keychain None false "pubsub.pubnub.com"
                18 ltac:(lia)) as H.
  cbv zeta in H.
  destruct H as (_ & _ & _ & _ & _ & H).
  change (is_custom _) with false in H.
  destruct H as (_ & Hs & Hu & _).
  split; [exact Hs | exact Hu].
Defined.

(** [nextOrigin] (lines 94-113), any sequence of calls. Whatever mix of
    normal advances and failovers is made, every call returns, no event
    is emitted, nothing of the instance but the subdomain counter changes,
    and a counter that starts inside [0, poolSize) stays there; it is at
    least 1 if it was, and on a pool base as soon as one normal advance was
    made. A custom base never draws from the random source, a pool base
    draws once per failover. *)
Theorem rotation_keeps_counter_in_range (X : Externals)
    (failovers : list bool) (w : World) :
  2 <= _maxSubDomain (inst w) ->
  0 <= _currentSubDomain (inst w) < _maxSubDomain (inst w) ->
  exists origins c,
    nextOrigins X failovers w
    = (Normal origins,
       {| inst := set_currentSubDomain c (inst w);
          trace := trace w;
          draws := if is_custom (inst w) then draws w
                   else (draws w + List.length (List.filter id failovers))%nat
       |})
    /\ List.length origins = List.length failovers
    /\ 0 <= c < _maxSubDomain (inst w)
    /\ (1 <= _currentSubDomain (inst w) -> 1 <= c)
    /\ (is_custom (inst w) = true -> c = _currentSubDomain (inst w))
    /\ (is_custom (inst w) = false ->
        existsb negb failovers = true -> 1 <= c).
Proof.
  intros Hm. revert w Hm.
  induction failovers as [|f fs IH]; intros w Hm Hc.
  - exists [], (_currentSubDomain (inst w)); cbn.
    split.
    { unfold ret. f_equal. destruct w as [[] ? ?]; cbn.
      destruct (is_custom _); [reflexivity|]. by rewrite Nat.add_0_r. }
    repeat split; try lia; discriminate.
  - cbn [nextOrigins]. unfold bind at 1.
    destruct (is_custom (inst w)) eqn:Hcustom.
    + rewrite nextOrigin_custom by assumption.
      destruct (IH w Hm Hc) as (os & c & Hrun & Hlen & Hrange & Hone & Hsame & _).
      unfold bind; rewrite Hrun, Hcustom.
      exists (_providedFQDN (inst w) :: os), c.
      split; [reflexivity|]. cbn [List.length].
      repeat split; try lia; auto; discriminate.
    + destruct f.
      * rewrite nextOrigin_failover by assumption.
        set (w1 := {| inst := inst w; trace := trace w; draws := S (draws w) |}).
        destruct (IH w1 Hm Hc)
          as (os & c & Hrun & Hlen & Hrange & Hone & _ & Hpos).
        unfold bind; rewrite Hrun. subst w1; cbn [inst trace draws] in *.
        rewrite Hcustom.
        exists (pool_origin (inst w)
                  (split_head "-" (generateUUID X (draws w))) :: os), c.
        split.
        { unfold ret. do 2 f_equal. cbn. lia. }
        cbn [List.length]. repeat split; try lia; try discriminate.
        intros _ Hex. apply Hpos; [assumption|exact Hex].
      * rewrite nextOrigin_advance by assumption; cbn zeta.
        set (c1 := advance (_maxSubDomain (inst w)) (_currentSubDomain (inst w))).
        assert (1 <= c1 < _maxSubDomain (inst w)) as Hc1
            by (apply advance_range; assumption).
        destruct (IH (with_counter c1 w))
          as (os & c & Hrun & Hlen & Hrange & Hone & _ & _);
          [exact Hm | cbn; lia |].
        unfold bind; rewrite Hrun. cbn [inst trace draws with_counter] in *.
        change (is_custom (set_currentSubDomain c1 (inst w)))
          with (is_custom (inst w)).
        rewrite Hcustom.
        eexists _, c. split; [reflexivity|].
        cbn [List.length]. cbn in Hrange, Hone.
        repeat split; try lia; discriminate.
Qed.

(** Five calls on the sample instance, failovers and advances mixed. *)
Lemma rotation_keeps_counter_in_range_witness :
  exists origins c,
    nextOrigins (sample_externals unreachable)
      [true; false; true; false; false] sample_world
    = (Normal origins,
       {| inst := set_currentSubDomain c (inst sample_world);
          trace := trace sample_world;
          draws := (draws sample_world + 2)%nat |})
    /\ 1 <= c < 20.
Proof.
  destruct (rotation_keeps_counter_in_range (sample_externals unreachable)
              [true; false; true; false; false] sample_world)
    as (origins & c & Hrun & _ & Hrange & Hone & _);
    [change (2 <= 20); lia | change (0 <= 9 < 20); lia |].
  exists origins, c. split; [exact Hrun|].
  change (1 <= 9 -> 1 <= c) in Hone. change (0 <= c < 20) in Hrange. lia.
Defined.

(** The round robin (lines 105-109) has period [poolSize - 1] and misses
    no subdomain: on a pool base with pool size 20, nineteen further
    normal advances bring back the same origin and the same world, and
    every subdomain from 1 to 19 is reached within nineteen advances. *)
Theorem round_robin_cycle (X : Externals) (w : World) :
  is_custom (inst w) = false ->
  _maxSubDomain (inst w) = 20 ->
  0 <= _currentSubDomain (inst w) < 20 ->
  (forall k : nat, (1 <= k)%nat -> rotate X (k + 19) w = rotate X k w)
  /\ (forall t : Z, 1 <= t <= 19 ->
      exists k : nat,
        (1 <= k <= 19)%nat
        /\ rotate X k w
           = (Normal (pool_origin (inst w) (toString t)), with_counter t w)).
Proof.
  intros Hp Hmax Hc. split.
  - intros [|k] Hk; [lia|].
    change (S k + 19)%nat with (S (k + 19)).
    rewrite !(rotate_pool X 20) by (assumption || lia).
    cbn zeta.
    assert ((_currentSubDomain (inst w) + Z.of_nat (k + 19)) mod (20 - 1)
            = (_currentSubDomain (inst w) + Z.of_nat k) mod (20 - 1)) as ->;
      [|reflexivity].
    rewrite Nat2Z.inj_add.
    replace (_currentSubDomain (inst w) + (Z.of_nat k + Z.of_nat 19))
      with (_currentSubDomain (inst w) + Z.of_nat k + 1 * (20 - 1)) by lia.
    apply Z.mod_add; lia.
  - intros t Ht.
    set (j := (t - 1 - _currentSubDomain (inst w)) mod 19).
    assert (0 <= j < 19) as Hj by (apply Z.mod_pos_bound; lia).
    exists (S (Z.to_nat j)). split; [lia|].
    rewrite (rotate_pool X 20) by (assumption || lia).
    cbn zeta. rewrite Z2Nat.id by lia.
    assert ((_currentSubDomain (inst w) + j) mod (20 - 1) + 1 = t) as ->;
      [|reflexivity].
    subst j. Z.div_mod_to_equations. lia.
Qed.

(** From the sample instance (counter 9): subdomain 3 is reached. *)
Lemma round_robin_cycle_witness :
  rotate (sample_externals unreachable) 20 sample_world
  = rotate (sample_externals unreachable) 1 sample_world
  /\ exists k : nat,
       (1 <= k <= 19)%nat
       /\ rotate (sample_externals unreachable) k sample_world
          = (Normal (pool_origin (inst sample_world) (toString 3)),
             with_counter 3 sample_world).
Proof.
  destruct (round_robin_cycle (sample_externals unreachable) sample_world)
    as (Hperiod & Hall);
    [reflexivity | reflexivity | change (0 <= 9 < 20); lia |].
  split.
  - apply (Hperiod 1%nat). lia.
  - apply Hall. lia.
Defined.

(** [shiftStandardOrigin] and [shiftSubscribeOrigin] (lines 116-126).
    Each returns the origin it caches and leaves the other cached origin
    alone; both advance the one counter of the instance, so on a pool base
    a normal shift of the standard origin followed by one of the subscribe
    origin hands out two consecutive subdomains. *)
Theorem shifts_cache_and_share_counter (X : Externals) (w : World) :
  (forall failover : bool,
      let w1 := after (shiftStandardOrigin X failover) w in
      outcome (shiftStandardOrigin X failover) w
      = Normal (getStandardOrigin (inst w1))
      /\ outcome (shiftStandardOrigin X failover) w
         = outcome (nextOrigin X failover) w
      /\ getSubscribeOrigin (inst w1) = getSubscribeOrigin (inst w)
      /\ trace w1 = trace w)
  /\ (forall failover : bool,
      let w1 := after (shiftSubscribeOrigin X failover) w in
      outcome (shiftSubscribeOrigin X failover) w
      = Normal (getSubscribeOrigin (inst w1))
      /\ outcome (shiftSubscribeOrigin X failover) w
         = outcome (nextOrigin X failover) w
      /\ getStandardOrigin (inst w1) = getStandardOrigin (inst w)
      /\ trace w1 = trace w)
  /\ (is_custom (inst w) = false ->
      let c1 := advance (_maxSubDomain (inst w)) (_currentSubDomain (inst w)) in
      let c2 := advance (_maxSubDomain (inst w)) c1 in
      let w2 :=
        after (shiftStandardOrigin X false ;; shiftSubscribeOrigin X false) w in
      getStandardOrigin (inst w2) = pool_origin (inst w) (toString c1)
      /\ getSubscribeOrigin (inst w2) = pool_origin (inst w) (toString c2)
      /\ _currentSubDomain (inst w2) = c2).
Proof.
  split; [|split].
  - intros failover w1; subst w1.
    unfold after, outcome, shiftStandardOrigin, bind.
    destruct (nextOrigin_returns X failover w) as (o & c & n & -> & _).
    cbn. repeat split.
  - intros failover w1; subst w1.
    unfold after, outcome, shiftSubscribeOrigin, bind.
    destruct (nextOrigin_returns X failover w) as (o & c & n & -> & _).
    cbn. repeat split.
  - intros Hp c1 c2 w2; subst w2.
    unfold after, shiftStandardOrigin, shiftSubscribeOrigin, bind.
    rewrite nextOrigin_advance by assumption; cbn zeta.
    unfold modify, ret; cbn [fst snd].
    rewrite nextOrigin_advance by exact Hp.
    cbn. repeat split.
Qed.

(** Both shifts on the sample instance (counter 9): subdomains 10, 11. *)
Lemma shifts_cache_and_share_counter_witness :
  getStandardOrigin
    (inst (after (shiftStandardOrigin (sample_externals unreachable) false ;;
                  shiftSubscribeOrigin (sample_externals unreachable) false)
                 sample_world))
  = "http://ps10.pubnub.com"
  /\ getSubscribeOrigin
       (inst (after (shiftStandardOrigin (sample_externals unreachable) false ;;
                     shiftSubscribeOrigin (sample_externals unreachable) false)
                    sample_world))
     = "http://ps11.pubnub.com".
Proof.
  destruct (shifts_cache_and_share_counter (sample_externals unreachable)
              sample_world) as (_ & _ & H).
  destruct (H eq_refl) as (Hs & Hu & _).
  split; [exact Hs | exact Hu].
Defined.

(** ** Core parameters *)

(** [prepareParams] (lines 80-92) is idempotent: composing an already
    composed mapping changes nothing, so a mapping that passes through
    the composer twice is sent as it was after the first pass. *)
Theorem prepareParams_idempotent (st : Networking) (data : option Params) :
  prepareParams st (Some (prepareParams st data)) = prepareParams st data.
Proof.
  apply map_eq; intros k.
  rewrite (prepareParams_lookup st (Some _)).
  change (default ∅ (Some (prepareParams st data)))
    with (prepareParams st data).
  rewrite !prepareParams_lookup.
  destruct (isInstanceIdEnabled (_config st) && String.eqb k "instanceid");
    [reflexivity|].
  by destruct (default ∅ data !! k), (inherited k), (_coreParams st !! k).
Qed.

(** What [addCoreParam] does to the own properties: nothing but the
    property [key] can change, and it is set unless [key] is [__proto__]. *)
Lemma addCoreParam_own (key : string) (value : JsVal) (w : World) :
  let w1 := after (addCoreParam key value) w in
  trace w1 = trace w /\ draws w1 = draws w
  /\ (exists C p, inst w1 = set_coreParams_proto p (set_coreParams C (inst w)))
  /\ _config (inst w1) = _config (inst w)
  /\ _keychain (inst w1) = _keychain (inst w)
  /\ (forall k, k <> key ->
        _coreParams (inst w1) !! k = _coreParams (inst w) !! k)
  /\ (key <> "__proto__" ->
      _coreParams (inst w1) = <[key := value]> (_coreParams (inst w))).
Proof.
  intros w1; subst w1.
  unfold after, addCoreParam, modify; cbn [snd inst trace draws].
  assert (inst w
          = set_coreParams_proto (_coreParams_proto (inst w))
              (set_coreParams (_coreParams (inst w)) (inst w))) as Hsame
      by (by destruct (inst w)).
  destruct (String.eqb_spec key "__proto__") as [->|Hkey]; cbn [andb].
  - destruct (reaches_accessor _ _); [destruct (object_or_null value)|].
    + repeat split; try done. by eexists _, _.
    + repeat split; try done. by eexists _, _.
    + repeat split; try done.
      * by eexists _, _.
      * intros k Hk; cbn. by rewrite lookup_insert_ne.
  - repeat split; try done.
    + by eexists _, _.
    + intros k Hk; cbn. by rewrite lookup_insert_ne.
Qed.

(** [setCoreParams] and [addCoreParam] (lines 68-75) with the composer.
    Both touch nothing of the instance but the core-parameter object and
    emit no event; [setCoreParams] returns the instance. After
    [addCoreParam(key, value)] every mapping is
    composed as before under every other key; under [key] it holds the
    caller's value if the caller supplies one, else [value], with two
    exceptions: [instanceid] holds the instance id when the flag is on,
    and a [key] that names a property every object inherits
    ([constructor], [toString], ...) never reaches a mapping that lacks
    it. After [setCoreParams(params)] the earlier core parameters are
    gone: a call without data of its own is composed from [params] alone,
    with the same two exceptions. *)
Theorem core_parameter_updates (key : string) (value : JsVal)
    (params : Params) (w : World) (P : option Params) :
  let w1 := after (addCoreParam key value) w in
  let w2 := after (setCoreParams params) w in
  let st := inst w in
  let instance_id := Some (of_key (getInstanceId (_keychain st))) in
  let injected (k : string) :=
    isInstanceIdEnabled (_config st) && String.eqb k "instanceid" in
  let on_every_object (k : string) :=
    In k ["constructor"; "hasOwnProperty"; "isPrototypeOf";
          "propertyIsEnumerable"; "toLocaleString"; "toString"; "valueOf";
          "__proto__"; "__defineGetter__"; "__defineSetter__";
          "__lookupGetter__"; "__lookupSetter__"] in
  (trace w1 = trace w /\ draws w1 = draws w
   /\ exists C p, inst w1 = set_coreParams_proto p (set_coreParams C st))
  /\ (trace w2 = trace w /\ draws w2 = draws w
      /\ inst w2 = set_coreParams_proto None (set_coreParams params st)
      /\ outcome (setCoreParams params) w = Normal (inst w2))
  /\ (key <> "__proto__" ->
      _coreParams (inst w1) = <[key := value]> (_coreParams st))
  /\ (forall k, k <> key ->
        prepareParams (inst w1) P !! k = prepareParams st P !! k)
  /\ (injected key = true -> prepareParams (inst w1) P !! key = instance_id)
  /\ (injected key = false ->
      (forall mine, default ∅ P !! key = Some mine ->
         prepareParams (inst w1) P !! key = Some mine)
      /\ (default ∅ P !! key = None -> ~ on_every_object key ->
          prepareParams (inst w1) P !! key = Some value)
      /\ (default ∅ P !! key = None -> on_every_object key ->
          prepareParams (inst w1) P !! key = None))
  /\ (forall k,
        (injected k = true -> prepareParams (inst w2) None !! k = instance_id)
        /\ (injected k = false -> ~ on_every_object k ->
            prepareParams (inst w2) None !! k = params !! k)
        /\ (injected k = false -> on_every_object k ->
            prepareParams (inst w2) None !! k = None)).
Proof.
  intros w1 w2 st instance_id injected on_every_object.
  destruct (addCoreParam_own key value w)
    as (Ht & Hd & Hinst & Hcfg & Hkc & Hother & Hkey).
  fold w1 in Ht, Hd, Hinst, Hcfg, Hkc, Hother, Hkey.
  subst instance_id injected on_every_object; cbv beta.
  split; [by repeat split|].
  split; [by repeat split|].
  split; [exact Hkey|].
  split; [|split; [|split]].
  - intros k Hk. rewrite !prepareParams_lookup, Hcfg, Hkc.
    by rewrite (Hother k Hk).
  - intros Hinj. rewrite prepareParams_lookup, Hcfg, Hkc.
    fold st. by rewrite Hinj.
  - intros Hinj. repeat split.
    + intros mine Hmine. rewrite prepareParams_lookup, Hcfg, Hkc.
      fold st. by rewrite Hinj, Hmine.
    + intros Hnone Hk. rewrite prepareParams_lookup, Hcfg, Hkc.
      fold st. rewrite Hinj, Hnone.
      assert (key <> "__proto__") as Hproto
          by (intros ->; apply Hk; cbn; tauto).
      apply inherited_not_In in Hk. rewrite Hk, (Hkey Hproto).
      apply lookup_insert_eq.
    + intros Hnone Hk. rewrite prepareParams_lookup, Hcfg, Hkc.
      fold st. rewrite Hinj, Hnone.
      apply inherited_In in Hk. by rewrite Hk.
  - intros k. subst w2.
    unfold after, setCoreParams, modify, bind, this; cbn [snd inst].
    rewrite prepareParams_lookup; cbn. fold st.
    repeat split.
    + by intros ->.
    + intros -> Hk. apply inherited_not_In in Hk. by rewrite Hk.
    + intros -> Hk. apply inherited_In in Hk. by rewrite Hk.
Qed.

(** On the sample instance: a core parameter [pnsdk] is composed into a
    call without data, one named [toString] is not. *)
Lemma core_parameter_updates_witness :
  prepareParams
    (inst (after (addCoreParam "pnsdk" (JStr "js")) sample_world)) None
  !! "pnsdk" = Some (JStr "js")
  /\ prepareParams
       (inst (after (addCoreParam "toString" (JStr "x")) sample_world)) None
     !! "toString" = None.
Proof.
  split.
  - destruct (core_parameter_updates "pnsdk" (JStr "js") ∅ sample_world None)
      as (_ & _ & _ & _ & _ & H & _).
    destruct (H eq_refl) as (_ & Hset & _).
    apply Hset; [reflexivity|].
    intros Hin; cbn in Hin; repeat destruct Hin as [Hin|Hin];
      try discriminate Hin; exact Hin.
  - destruct (core_parameter_updates "toString" (JStr "x") ∅ sample_world
                None) as (_ & _ & _ & _ & _ & H & _).
    destruct (H eq_refl) as (_ & _ & Hskip).
    apply Hskip; [reflexivity|]. cbn; tauto.
Defined.

(** ** Requests *)

Section Requests.

Variable X : Externals.

Lemma invoke_trace (cb : Callback) (err result : JsVal) (w0 w : World) :
  trace w = trace w0 ->
  exists rest,
    drop (List.length (trace w0)) (trace (snd (invoke cb err result w))) = rest
    /\ sent_requests rest = []
    /\ inst (snd (invoke cb err result w)) = inst w
    /\ draws (snd (invoke cb err result w)) = draws w
    /\ (cb = UserCallback ->
        rest = [Called err result]
        /\ fst (invoke cb err result w) = Normal tt).
Proof.
  intros Ht. destruct cb; cbn; rewrite Ht.
  - rewrite drop_app_length. eexists; repeat split.
  - rewrite drop_all. eexists; repeat split; discriminate.
Qed.

Lemma abstractedXDR_trace (m : Method) (url : string) (t : Z) (q : Params)
    (cb : Callback) (w0 w : World) :
  trace w = trace w0 ->
  exists rest,
    drop (List.length (trace w0))
      (trace (snd (_abstractedXDR X m url t q cb w)))
    = Sent m url t q :: rest
    /\ sent_requests rest = []
    /\ inst (snd (_abstractedXDR X m url t q cb w)) = inst w
    /\ draws (snd (_abstractedXDR X m url t q cb w)) = draws w.
Proof.
  intros Ht. unfold _abstractedXDR, bind, emit; cbn.
  destruct (transport X m url t q) as [err resp]; cbn.
  destruct (truthy err);
    [|destruct (truthy (resp_error resp));
      [|destruct (JSON_parse X (resp_text resp))]];
    destruct cb; cbn; rewrite Ht, <- ?app_assoc, drop_app_length;
    eexists; repeat split.
Qed.

Lemma xdr_trace (d : Params) (u : list JsVal) (t : option Z)
    (cb : Callback) (w0 w : World) :
  trace w = trace w0 ->
  exists rest,
    drop (List.length (trace w0)) (trace (snd (_xdr X d u t cb w)))
    = Sent GET (join "/" u)
        (or_timeout t (transactionalRequestTimeout (_config (inst w)))) d
      :: rest
    /\ sent_requests rest = []
    /\ inst (snd (_xdr X d u t cb w)) = inst w
    /\ draws (snd (_xdr X d u t cb w)) = draws w.
Proof. apply abstractedXDR_trace. Qed.

Lemma postXDR_trace (d : Params) (u : list JsVal) (t : option Z)
    (cb : Callback) (w0 w : World) :
  trace w = trace w0 ->
  exists rest,
    drop (List.length (trace w0)) (trace (snd (_postXDR X d u t cb w)))
    = Sent POST (join "/" u)
        (or_timeout t (transactionalRequestTimeout (_config (inst w)))) d
      :: rest
    /\ sent_requests rest = []
    /\ inst (snd (_postXDR X d u t cb w)) = inst w
    /\ draws (snd (_postXDR X d u t cb w)) = draws w.
Proof. apply abstractedXDR_trace. Qed.

Lemma set_if_present_eq (key : string) (v : option string) (m : Params) :
  truthy (of_key v) = true ->
  set_if_present key v m !! key = Some (of_key v).
Proof. unfold set_if_present; intros ->. apply lookup_insert_eq. Qed.

Lemma set_if_present_ne (key k : string) (v : option string) (m : Params) :
  key <> k -> set_if_present key v m !! k = m !! k.
Proof.
  unfold set_if_present; intros Hne.
  destruct (truthy (of_key v)); [by rewrite lookup_insert_ne|reflexivity].
Qed.

Lemma join_origin (o : string) (second : JsVal) (rest : list JsVal) :
  join "/" (JStr o :: second :: rest) = o +:+ "/" +:+ join "/" (second :: rest).
Proof. reflexivity. Qed.

End Requests.

Section Plan.

Variable X : Externals.

Ltac open_op :=
  unfold events_of, after, outcome; cbn [perform];
  unfold fetchHistory, performChannelGroupOperation, provisionDeviceForPush,
    performHeartbeat, fetchTime, fetchWhereNow, fetchHereNow, setState,
    fetchState, performPublish, performSubscribe, bind, this;
  cbv beta iota zeta.

Ltac lookups :=
  repeat first
    [ rewrite lookup_insert_eq
    | rewrite set_if_present_ne by congruence
    | rewrite lookup_insert_ne by congruence ].

Ltac facts :=
  unfold query_facts;
  cbn [is_heartbeat injects_uuid is_provision is_set_state incoming
       andb negb];
  cbv zeta;
  split; [|split; [|split]];
  [ let k := fresh "k" in
    let Hs := fresh "Hs" in
    intros k ? ? Hs; try specialize (Hs eq_refl); lookups; reflexivity
  | unfold set_if_present;
    repeat match goal with
      | |- context [truthy ?v] => destruct (truthy v)
      end;
    cbn [andb negb]; lookups; reflexivity
  | unfold set_if_present;
    repeat match goal with
      | |- context [truthy ?v] => destruct (truthy v)
      end;
    cbn [andb negb]; lookups; reflexivity
  | let Hs := fresh "Hs" in
    intros Hs; try discriminate Hs; lookups; reflexivity ].

Ltac rejected :=
  match goal with
  | |- context [invoke ?cb ?e ?r ?w] =>
      let rest := fresh "rest" in
      let Hd := fresh "Hd" in
      let Hr := fresh "Hr" in
      let Hi := fresh "Hi" in
      let Hn := fresh "Hn" in
      let Hu := fresh "Hu" in
      destruct (invoke_trace cb e r w w eq_refl)
        as (rest & Hd & Hr & Hi & Hn & Hu);
      rewrite Hd, ?Hi, ?Hn;
      split; [reflexivity|]; split; [reflexivity|];
      split; [exact Hr|];
      intros Hcb; destruct (Hu Hcb) as [-> ->]; split; reflexivity
  end.

Lemma sent_requests_sent (m : Method) (u : string) (t : Z) (q : Params)
    (rest : list Event) :
  sent_requests rest = [] ->
  sent_requests (Sent m u t q :: rest) = [(m, u, t, q)].
Proof. intros H. cbn. change (flat_map _ rest) with (sent_requests rest).
       by rewrite H. Qed.

Ltac dispatched :=
  cbn [app];
  match goal with
  | |- context [_xdr X ?d ?u ?t ?cb ?w] =>
      let rest := fresh "rest" in
      let Hd := fresh "Hd" in
      let Hr := fresh "Hr" in
      let Hi := fresh "Hi" in
      let Hn := fresh "Hn" in
      destruct (xdr_trace X d u t cb w w eq_refl)
        as (rest & Hd & Hr & Hi & Hn);
      rewrite Hd, ?Hi, ?Hn, (sent_requests_sent _ _ _ _ _ Hr)
  | |- context [_postXDR X ?d ?u ?t ?cb ?w] =>
      let rest := fresh "rest" in
      let Hd := fresh "Hd" in
      let Hr := fresh "Hr" in
      let Hi := fresh "Hi" in
      let Hn := fresh "Hn" in
      destruct (postXDR_trace X d u t cb w w eq_refl)
        as (rest & Hd & Hr & Hi & Hn);
      rewrite Hd, ?Hi, ?Hn, (sent_requests_sent _ _ _ _ _ Hr)
  end;
  split; [reflexivity|]; split; [reflexivity|];
  eexists _, _; split;
  [ rewrite join_origin; cbn [or_timeout]; reflexivity | facts ].

Ltac solve_op :=
  first
    [ rejected
    | dispatched
    | match goal with
      | |- context [if ?b then _ else _] => destruct b eqn:?
      end; cbn [andb orb negb]; solve_op ].

(** One invocation of an operation other than leave: nothing of the
    instance changes; a failed check is reported without a request; else
    one request goes out. *)
Lemma perform_request (op : Operation) (cb : Callback) (w : World) :
  is_leave op = false ->
  let st := inst w in
  let evs := events_of (perform X op cb) w in
  let w' := after (perform X op cb) w in
  draws w' = draws w
  /\ inst w' = st
  /\ match rejection op (_keychain st) with
     | Some message =>
         sent_requests evs = []
         /\ (cb = UserCallback ->
             evs = [Called (validationError X message) JUndefined]
             /\ outcome (perform X op cb) w = Normal tt)
     | None =>
         exists path q,
           sent_requests evs
           = [(if is_post op then POST else GET,
               (if is_subscribe op then getSubscribeOrigin st
                else getStandardOrigin st) +:+ "/" +:+ path,
               timeout_of op (_config st), q)]
           /\ query_facts X op st q
     end.
Proof.
  intros Hleave st evs w'; subst st evs w'.
  destruct op as [channel d|g mode d|dev d|chs d|channel d| |u|ch g d|ch d
                 |u ch d|ch msg d mode|chs token d];
    try discriminate Hleave; clear Hleave; open_op;
    cbn [rejection needs_publish_key is_post is_subscribe timeout_of andb].
  all: solve_op.
Qed.

(** One invocation of the leave operation. *)
Lemma leave_request (channel : string) (d : option Params) (cb : Callback)
    (w : World) :
  let op := PerformLeave channel d in
  let st := inst w in
  let evs := events_of (perform X op cb) w in
  let w' := after (perform X op cb) w in
  draws w' = draws w
  /\ match rejection op (_keychain st) with
     | Some message =>
         inst w' = st
         /\ evs = match cb with
                  | UserCallback =>
                      [Called (validationError X message) JUndefined]
                  | NoCallback => []
                  end
         /\ (cb = UserCallback -> outcome (perform X op cb) w = Normal tt)
     | None =>
         exists origin c path q,
           nextOrigin X false w = (Normal origin, with_counter c w)
           /\ inst w' = set_currentSubDomain c st
           /\ match _sendBeacon st with
              | Some sendBeacon =>
                  let target :=
                    buildURL X
                      [JStr origin; JStr "v2"; JStr "presence"; JStr "sub_key";
                       of_key (getSubscribeKey (_keychain st)); JStr "channel";
                       JStr (encode X channel); JStr "leave"] q in
                  evs = Beacon target
                        :: (if sendBeacon target
                            then match cb with
                                 | UserCallback => [Called JNull leave_ok]
                                 | NoCallback => []
                                 end
                            else [])
                  /\ (cb = UserCallback ->
                      outcome (perform X op cb) w = Normal tt)
              | None =>
                  sent_requests evs
                  = [(GET, origin +:+ "/" +:+ path,
                      transactionalRequestTimeout (_config st), q)]
              end
           /\ query_facts X op st q
           /\ q = set_if_present "uuid" (getUUID (_keychain st))
                    (set_if_present "auth" (getAuthKey (_keychain st))
                       (prepareParams st d))
     end.
Proof.
  intros op st evs w'; subst op st evs w'.
  unfold events_of, after, outcome; cbn [rejection needs_publish_key andb].
  remember (perform X (PerformLeave channel d) cb w) as run eqn:Hrun.
  cbn [perform] in Hrun.
  unfold performLeave, bind at 1, this in Hrun; cbv beta iota zeta in Hrun.
  destruct (missing (getSubscribeKey (_keychain (inst w)))).
  - subst run.
    destruct cb; cbn; rewrite ?drop_app_length, ?drop_all; repeat split;
      intros; try reflexivity; discriminate.
  - unfold bind at 1 in Hrun.
    destruct (nextOrigin_false_returns X w) as (origin & c & Hnext).
    rewrite Hnext in Hrun.
    destruct (_sendBeacon (inst w)) as [sendBeacon|].
    + unfold bind, emit, when in Hrun.
      match type of Hrun with
      | context [sendBeacon ?t] => destruct (sendBeacon t) eqn:Hsent
      end; subst run.
      * split; [destruct cb; reflexivity|].
        eexists origin, c, "", _. split; [exact Hnext|].
        split; [destruct cb; reflexivity|].
        split.
        -- rewrite Hsent.
           destruct cb; unfold invoke, emit, throw;
             cbn [fst snd trace inst draws with_counter];
             rewrite <- ?app_assoc, drop_app_length;
             (split; [reflexivity|]); intros; try reflexivity; discriminate.
        -- split; [facts|reflexivity].
      * split; [reflexivity|].
        eexists origin, c, "", _. split; [exact Hnext|].
        split; [reflexivity|].
        split.
        -- rewrite Hsent. unfold ret.
           cbn [fst snd trace inst draws with_counter].
           rewrite drop_app_length. split; reflexivity.
        -- split; [facts|reflexivity].
    + subst run.
      match goal with
      | |- context [_xdr X ?dd ?u ?t cb ?w1] =>
          destruct (xdr_trace X dd u t cb w w1 eq_refl)
            as (rest & Hd & Hr & Hi & Hn)
      end.
      rewrite Hd, Hi, Hn, (sent_requests_sent _ _ _ _ _ Hr).
      split; [reflexivity|].
      eexists origin, c, _, _. split; [exact Hnext|].
      split; [reflexivity|]. split.
      * rewrite join_origin. reflexivity.
      * split; [facts|reflexivity].
Qed.

End Plan.

Section Operations.

Variable X : Externals.

(** The requests of one invocation, for every operation. *)
Lemma sent_requests_of (op : Operation) (cb : Callback) (w : World) :
  let st := inst w in
  let evs := events_of (perform X op cb) w in
  if dispatches op st
  then exists path q,
      sent_requests evs
      = [(if is_post op then POST else GET,
          origin_for X op w +:+ "/" +:+ path,
          timeout_of op (_config st), q)]
      /\ query_facts X op st q
  else sent_requests evs = [].
Proof.
  intros st evs; subst st evs.
  destruct (is_leave op) eqn:Hleave.
  - destruct op; try discriminate Hleave.
    pose proof (leave_request X channel incomingData cb w) as H.
    cbv zeta in H. destruct H as (_ & H).
    unfold dispatches, origin_for.
    cbn [is_leave is_subscribe is_post timeout_of andb negb].
    destruct (rejection _ _).
    + destruct H as (_ & -> & _). by destruct cb.
    + destruct H as (origin & c & path & q & Hnext & _ & H & Hq & _).
      unfold outcome; rewrite Hnext; cbn [fst].
      destruct (_sendBeacon (inst w)) as [sendBeacon|]; cbn [negb].
      * destruct H as (-> & _).
        match goal with
        | |- context [sendBeacon ?t] => destruct (sendBeacon t)
        end; by destruct cb.
      * exists path, q. by split.
  - pose proof (perform_request X op cb w Hleave) as H.
    cbv zeta in H. destruct H as (_ & _ & H).
    unfold dispatches, origin_for. rewrite Hleave; cbn [andb negb].
    destruct (rejection _ _); [by destruct H|exact H].
Qed.

Lemma request_origin_and_method_aux (op : Operation) (cb : Callback)
    (w : World) :
  Forall
    (fun r =>
       fst (fst (fst r)) = (if is_post op then POST else GET)
       /\ exists path, snd (fst (fst r)) = origin_for X op w +:+ "/" +:+ path)
    (sent_requests (events_of (perform X op cb) w)).
Proof.
  pose proof (sent_requests_of op cb w) as H. cbv zeta in H.
  destruct (dispatches op (inst w)).
  - destruct H as (path & q & -> & _).
    constructor; [|constructor]. split; [reflexivity|by exists path].
  - rewrite H. constructor.
Qed.

End Operations.

(** ** Completion, cause by cause *)

Section Completion.

Variable X : Externals.

(** An invocation whose checks pass and that does not take the beacon
    path runs the response handler on one request. *)
Lemma perform_handler (op : Operation) (w : World) :
  rejection op (_keychain (inst w)) = None ->
  (is_leave op = true -> _sendBeacon (inst w) = None) ->
  exists m url timeout query w1,
    perform X op UserCallback w
    = _abstractedXDR X m url timeout query UserCallback w1
    /\ trace w1 = trace w.
Proof.
  intros Hrej Hbeacon.
  destruct op as [channel d|g mode d|dev d|chs d|channel d| |u|ch g d|ch d
                 |u ch d|ch msg d mode|chs token d];
    cbn [rejection needs_publish_key andb] in Hrej; cbn [perform].
  5: { unfold performLeave, bind at 1, this; cbv beta iota zeta.
       destruct (missing (getSubscribeKey (_keychain (inst w))));
         [discriminate Hrej|].
       unfold bind at 1.
       destruct (nextOrigin_false_returns X w) as (origin & c & ->).
       cbn [inst with_counter].
       rewrite (Hbeacon eq_refl).
       eexists _, _, _, _, (with_counter c w). split; reflexivity. }
  all: unfold fetchHistory, performChannelGroupOperation,
         provisionDeviceForPush, performHeartbeat, fetchTime, fetchWhereNow,
         fetchHereNow, setState, fetchState, performPublish,
         performSubscribe, bind, this;
       cbv beta iota zeta;
       repeat match type of Hrej with
         | context [missing ?k] => destruct (missing k); cbn [andb] in Hrej
         end;
       try discriminate Hrej;
       try match goal with
         | |- context [if String.eqb ?m "POST" then _ else _] =>
             destruct (String.eqb m "POST")
         end;
       eexists _, _, _, _, w; split; reflexivity.
Qed.

End Completion.

(** C7, amended. For every operation that reports through the completion
    callback (all but grant and audit), the events of one invocation are
    settled by its cause. A missing credential: one invocation of the
    callback with the validation error, no request. The beacon path of
    leave: one beacon, then one synthesized success if and only if the
    user agent accepted the beacon, and no invocation at all if it
    refused. Any other invocation: one request, then one invocation of
    the callback with the transport error, or with the error carried by
    the response, or with the parsed body; but when the body does not
    parse the parser's exception escapes and the callback is not invoked.
    So the callback is invoked at most once, and not at all exactly in
    the two cases named. *)
Theorem completion_by_cause (X : Externals) (op : Operation) (w : World) :
  let run := perform X op UserCallback in
  let evs := events_of run w in
  let st := inst w in
  let checked := rejection op (_keychain st) in
  (completions evs <= 1)%nat
  /\ (forall message,
        checked = Some message ->
        evs = [Called (validationError X message) JUndefined]
        /\ outcome run w = Normal tt)
  /\ (forall sendBeacon,
        checked = None -> is_leave op = true ->
        _sendBeacon st = Some sendBeacon ->
        exists target,
          outcome run w = Normal tt
          /\ (sendBeacon target = true ->
              evs = [Beacon target; Called JNull leave_ok])
          /\ (sendBeacon target = false -> evs = [Beacon target]))
  /\ (checked = None ->
      (is_leave op = true -> _sendBeacon st = None) ->
      exists m url timeout query,
        let err := fst (transport X m url timeout query) in
        let resp := snd (transport X m url timeout query) in
        let sent := Sent m url timeout query in
        (truthy err = true ->
         evs = [sent; Called err JNull] /\ outcome run w = Normal tt)
        /\ (truthy err = false -> truthy (resp_error resp) = true ->
            evs = [sent; Called (resp_error resp) JNull]
            /\ outcome run w = Normal tt)
        /\ (truthy err = false -> truthy (resp_error resp) = false ->
            forall parsed,
              JSON_parse X (resp_text resp) = Some parsed ->
              evs = [sent; Called JNull parsed]
              /\ outcome run w = Normal tt)
        /\ (truthy err = false -> truthy (resp_error resp) = false ->
            JSON_parse X (resp_text resp) = None ->
            evs = [sent]
            /\ outcome run w = Throw (SyntaxError (resp_text resp)))).
Proof.
  intros run evs st checked.
  assert (forall message,
             checked = Some message ->
             evs = [Called (validationError X message) JUndefined]
             /\ outcome run w = Normal tt) as Hinvalid.
  { intros message Hrej. subst checked st evs run.
    destruct (is_leave op) eqn:Hleave.
    - destruct op; try discriminate Hleave.
      pose proof (leave_request X channel incomingData UserCallback w) as H.
      cbv zeta in H. rewrite Hrej in H.
      destruct H as (_ & _ & Hevs & Hout). split; [exact Hevs|by apply Hout].
    - pose proof (perform_request X op UserCallback w Hleave) as H.
      cbv zeta in H. rewrite Hrej in H.
      destruct H as (_ & _ & _ & H). by apply H. }
  assert (forall sendBeacon,
             checked = None -> is_leave op = true ->
             _sendBeacon st = Some sendBeacon ->
             exists target,
               outcome run w = Normal tt
               /\ evs = Beacon target
                        :: (if sendBeacon target
                            then [Called JNull leave_ok] else []))
    as Hbeacon.
  { intros sendBeacon Hrej Hleave Hb. subst checked st evs run.
    destruct op; try discriminate Hleave.
    pose proof (leave_request X channel incomingData UserCallback w) as H.
    cbv zeta in H. rewrite Hrej, Hb in H.
    destruct H as (_ & origin & c & _ & q & _ & _ & (Hevs & Hout) & _).
    eexists. split; [by apply Hout|exact Hevs]. }
  assert (checked = None ->
          (is_leave op = true -> _sendBeacon st = None) ->
          exists m url timeout query,
            (run w
             = _abstractedXDR X m url timeout query UserCallback
                 {| inst := inst (after run w); trace := trace w;
                    draws := draws (after run w) |})
            /\ forall r tail,
                 _abstractedXDR X m url timeout query UserCallback
                   {| inst := inst (after run w); trace := trace w;
                      draws := draws (after run w) |}
                 = (r, extend {| inst := inst (after run w); trace := trace w;
                                 draws := draws (after run w) |} tail) ->
                 evs = tail /\ outcome run w = r) as Hhandled.
  { intros Hrej Hb. subst checked st.
    destruct (perform_handler X op w Hrej Hb)
      as (m & url & t & q & w1 & Hrun & Htrace).
    exists m, url, t, q.
    assert (w1 = {| inst := inst w1; trace := trace w; draws := draws w1 |})
      as Hw1 by (destruct w1; cbn in *; by subst).
    assert (inst (after run w) = inst w1 /\ draws (after run w) = draws w1)
      as [Hi Hn].
    { unfold after, run. rewrite Hrun, abstractedXDR_run; cbv zeta.
      repeat match goal with
        | |- context [if ?b then _ else _] => destruct b
        | |- context [match ?o with Some _ => _ | None => _ end] => destruct o
        end; split; reflexivity. }
    rewrite Hi, Hn, <- Hw1. split; [exact Hrun|].
    intros r tail Heq. subst evs. unfold outcome, run. rewrite Hrun, Heq.
    split; [|reflexivity].
    apply events_of_trace. unfold after, run. rewrite Hrun, Heq.
    cbn. by rewrite Htrace. }
  split; [|split; [exact Hinvalid|split]].
  - destruct checked as [message|] eqn:Hrej.
    + destruct (Hinvalid message eq_refl) as [-> _]. cbn; lia.
    + destruct (is_leave op) eqn:Hleave;
        [destruct (_sendBeacon st) as [sendBeacon|] eqn:Hb|].
      * destruct (Hbeacon sendBeacon eq_refl eq_refl eq_refl)
          as (target & _ & ->).
        destruct (sendBeacon target); cbn; lia.
      * destruct (Hhandled eq_refl (fun _ => eq_refl))
          as (m & url & t & q & _ & Hx).
        rewrite abstractedXDR_run in Hx; cbv zeta in Hx.
        repeat match type of Hx with
          | context [if ?b then _ else _] => destruct b
          | context [match ?o with Some _ => _ | None => _ end] => destruct o
          end;
          destruct (Hx _ _ eq_refl) as [-> _]; cbn; lia.
      * destruct (Hhandled eq_refl ltac:(discriminate))
          as (m & url & t & q & _ & Hx).
        rewrite abstractedXDR_run in Hx; cbv zeta in Hx.
        repeat match type of Hx with
          | context [if ?b then _ else _] => destruct b
          | context [match ?o with Some _ => _ | None => _ end] => destruct o
          end;
          destruct (Hx _ _ eq_refl) as [-> _]; cbn; lia.
  - intros sendBeacon Hrej Hleave Hb.
    destruct (Hbeacon sendBeacon Hrej Hleave Hb) as (target & Hout & Hevs).
    exists target. split; [exact Hout|].
    split; intros Hsent; rewrite Hsent in Hevs; exact Hevs.
  - intros Hrej Hb.
    destruct (Hhandled Hrej Hb) as (m & url & t & q & _ & Hx).
    exists m, url, t, q. cbv zeta.
    rewrite abstractedXDR_run in Hx; cbv zeta in Hx.
    split; [|split; [|split]].
    + intros Herr. rewrite Herr in Hx. exact (Hx _ _ eq_refl).
    + intros Herr Hresp. rewrite Herr, Hresp in Hx. exact (Hx _ _ eq_refl).
    + intros Herr Hresp parsed Hparse.
      rewrite Herr, Hresp, Hparse in Hx. exact (Hx _ _ eq_refl).
    + intros Herr Hresp Hparse.
      rewrite Herr, Hresp, Hparse in Hx. exact (Hx _ _ eq_refl).
Qed.


(** Every operation (lines 129-476) checks its credentials first, the
    subscribe key before the publish key. When a check fails nothing is
    sent to the transport or to the beacon, the instance is left as it was
    (a failed leave does not advance the subdomain counter), and the
    caller's callback receives the validation error for that key, once,
    with no second argument. *)
Theorem missing_credential_fast_fail (X : Externals) (op : Operation)
    (cb : Callback) (w : World) (message : string) :
  rejection op (_keychain (inst w)) = Some message ->
  let evs := events_of (perform X op cb) w in
  sent_requests evs = []
  /\ inst (after (perform X op cb) w) = inst w
  /\ draws (after (perform X op cb) w) = draws w
  /\ (cb = UserCallback ->
      evs = [Called (validationError X message) JUndefined]
      /\ outcome (perform X op cb) w = Normal tt).
Proof.
  intros Hrej evs; subst evs.
  destruct (is_leave op) eqn:Hleave.
  - destruct op; try discriminate Hleave.
    pose proof (leave_request X channel incomingData cb w) as H.
    cbv zeta in H. rewrite Hrej in H.
    destruct H as (Hdraws & Hinst & Hevs & Hout).
    split; [rewrite Hevs; by destruct cb|].
    split; [assumption|]. split; [assumption|].
    intros ->. split; [exact Hevs|by apply Hout].
  - pose proof (perform_request X op cb w Hleave) as H.
    cbv zeta in H. rewrite Hrej in H.
    destruct H as (Hdraws & Hinst & Hsent & Hcb).
    repeat split; try assumption; by apply Hcb.
Qed.

(** Publishing with a subscribe key and no publish key. *)
Lemma missing_credential_fast_fail_witness :
  events_of
    (perform (sample_externals (answering "[1]"))
       (PerformPublish "lobby" (JStr "hi") None "GET") UserCallback)
    subscriber_world
  = [Called (sample_validationError "Missing Publish Key") JUndefined].
Proof.
  refine (proj1 (proj2 (proj2 (proj2
            (missing_credential_fast_fail (sample_externals (answering "[1]"))
               (PerformPublish "lobby" (JStr "hi") None "GET") UserCallback
               subscriber_world "Missing Publish Key" _))) eq_refl)).
  reflexivity.
Defined.


(** The timeout of a request (lines 473, 486-499): every request an
    operation sends carries the transactional timeout, except those of
    subscribe, which carry the subscribe timeout unless that is 0. *)
Theorem request_timeouts (X : Externals) (op : Operation) (cb : Callback)
    (w : World) :
  let cfg := _config (inst w) in
  Forall
    (fun r =>
       snd (fst r)
       = if is_subscribe op
         then if subscribeRequestTimeout cfg =? 0
              then transactionalRequestTimeout cfg
              else subscribeRequestTimeout cfg
         else transactionalRequestTimeout cfg)
    (sent_requests (events_of (perform X op cb) w)).
Proof.
  pose proof (sent_requests_of X op cb w) as H. cbv zeta in H.
  destruct (dispatches op (inst w)).
  - destruct H as (path & q & -> & _).
    constructor; [reflexivity|constructor].
  - rewrite H. constructor.
Qed.

(** Subscribing on the sample instance (subscribe timeout 310000,
    transactional timeout 15000) and on one whose subscribe timeout is 0;
    publishing on the sample instance. *)
Lemma request_timeouts_witness :
  map (fun r => snd (fst r))
    (sent_requests
       (events_of (perform (sample_externals (answering "[1]"))
                     (PerformSubscribe "lobby" 0 None) UserCallback)
                  sample_world))
  = [310000]
  /\ map (fun r => snd (fst r))
       (sent_requests
          (events_of (perform (sample_externals (answering "[1]"))
                        (PerformSubscribe "lobby" 0 None) UserCallback)
                     untimed_world))
     = [15000]
  /\ map (fun r => snd (fst r))
       (sent_requests
          (events_of (perform (sample_externals (answering "[1]"))
                        (PerformPublish "lobby" (JStr "hi") None "GET")
                        UserCallback)
                     sample_world))
     = [15000].
Proof.
  assert (forall (l : list (Method * string * Z * Params)) t,
             List.length l = 1%nat ->
             Forall (fun r => snd (fst r) = t) l ->
             map (fun r => snd (fst r)) l = [t]) as pin.
  { intros [|r [|? ?]] t Hlen Hall; try discriminate Hlen.
    apply Forall_inv in Hall. cbn. by rewrite Hall. }
  split; [|split].
  - apply pin; [reflexivity|].
    exact (request_timeouts (sample_externals (answering "[1]"))
             (PerformSubscribe "lobby" 0 None) UserCallback sample_world).
  - apply pin; [reflexivity|].
    exact (request_timeouts (sample_externals (answering "[1]"))
             (PerformSubscribe "lobby" 0 None) UserCallback untimed_world).
  - apply pin; [reflexivity|].
    exact (request_timeouts (sample_externals (answering "[1]"))
             (PerformPublish "lobby" (JStr "hi") None "GET") UserCallback
             sample_world).
Defined.

(** Where a request goes and how (lines 134, 282-283, 445-449, 457):
    every request is a GET, except a publish in mode ['POST']; its URL
    starts with the cached subscribe origin for subscribe, with a newly
    advanced origin for leave, and with the cached standard origin for
    every other operation. *)
Theorem request_origin_and_method (X : Externals) (op : Operation)
    (cb : Callback) (w : World) :
  Forall
    (fun r =>
       fst (fst (fst r)) = (if is_post op then POST else GET)
       /\ exists path, snd (fst (fst r)) = origin_for X op w +:+ "/" +:+ path)
    (sent_requests (events_of (perform X op cb) w)).
Proof. apply request_origin_and_method_aux. Qed.

(** What every query holds (lines 139-145 and their likes). The query of
    a request is the mapping [prepareParams] composes from the caller's
    own data (from an empty object for time and where-now), except under
    three keys. Under [auth] it holds the keychain's auth key when there
    is one, heartbeat apart, which injects nothing. Under [uuid] it holds
    the keychain's UUID when there is one, for leave, time, here-now,
    publish and subscribe. Push provisioning writes both keys whatever
    the keychain returns. Under [state], for set-state, it holds the
    serialized state of the composed mapping. So a keychain value
    replaces what the caller passed under [auth] and [uuid], and every
    other key the caller passed reaches the query as [prepareParams]
    leaves it. *)
Theorem request_identity (X : Externals) (op : Operation) (cb : Callback)
    (w : World) :
  Forall
    (fun r => query_facts X op (inst w) (snd r))
    (sent_requests (events_of (perform X op cb) w)).
Proof.
  pose proof (sent_requests_of X op cb w) as H. cbv zeta in H.
  destruct (dispatches op (inst w)).
  - destruct H as (path & q & -> & Hq).
    constructor; [exact Hq|constructor].
  - rewrite H. constructor.
Qed.

(** A history request on an instance whose keychain has an auth key, by
    a caller who passes a count and an [auth] of their own: the count is
    kept, the caller's [auth] is replaced. *)
Lemma request_identity_witness :
  Forall
    (fun r =>
       snd r !! "count" = Some (JNum 5)
       /\ snd r !! "auth" = Some (JStr "token-1")
       /\ snd r !! "uuid" = None)
    (sent_requests
       (events_of
          (perform (sample_externals (answering "[1]"))
             (FetchHistory "lobby"
                (Some {["count" := JNum 5; "auth" := JStr "mine"]}))
             UserCallback)
          authed_world))
  /\ List.length
       (sent_requests
          (events_of
             (perform (sample_externals (answering "[1]"))
                (FetchHistory "lobby"
                   (Some {["count" := JNum 5; "auth" := JStr "mine"]}))
                UserCallback)
             authed_world))
     = 1%nat.
Proof.
  split; [|reflexivity].
  eapply Forall_impl;
    [exact (request_identity (sample_externals (answering "[1]"))
              (FetchHistory "lobby"
                 (Some {["count" := JNum 5; "auth" := JStr "mine"]}))
              UserCallback authed_world)|].
  intros r (Hother & Hauth & Huuid & _).
  split; [|split].
  - rewrite Hother by (discriminate || (intros; discriminate)).
    reflexivity.
  - rewrite Hauth. reflexivity.
  - rewrite Huuid. reflexivity.
Defined.

(** The operations never retry and never send twice: one invocation
    hands exactly one request to the transport when its checks pass, and
    none when a check fails or when it is a leave on an instance with a
    beacon function, accepted or refused (lines 296-302). *)
Theorem one_request_or_none (X : Externals) (op : Operation) (cb : Callback)
    (w : World) :
  List.length (sent_requests (events_of (perform X op cb) w))
  = if dispatches op (inst w) then 1%nat else 0%nat.
Proof.
  pose proof (sent_requests_of X op cb w) as H. cbv zeta in H.
  destruct (dispatches op (inst w)).
  - by destruct H as (path & q & -> & _).
  - by rewrite H.
Qed.

(** The leave operation on an instance with a beacon function (lines
    281-299): with the subscribe key present it advances the origin,
    hands the beacon the URL built from that new origin, the encoded
    channel and the query (the mapping composed from the caller's data,
    with the keychain's auth key and UUID written over it where
    present), and never uses the transport; the callback receives the
    synthesized success if and only if the beacon function returned
    true. *)
Theorem leave_takes_beacon_path (X : Externals) (channel : string)
    (d : option Params) (sendBeacon : string -> bool) (w : World) :
  missing (getSubscribeKey (_keychain (inst w))) = false ->
  _sendBeacon (inst w) = Some sendBeacon ->
  let run := perform X (PerformLeave channel d) UserCallback in
  let kc := _keychain (inst w) in
  let query :=
    set_if_present "uuid" (getUUID kc)
      (set_if_present "auth" (getAuthKey kc) (prepareParams (inst w) d)) in
  exists origin,
    outcome (nextOrigin X false) w = Normal origin
    /\ inst (after run w) = inst (after (nextOrigin X false) w)
    /\ let target :=
         buildURL X
           [JStr origin; JStr "v2"; JStr "presence"; JStr "sub_key";
            of_key (getSubscribeKey kc); JStr "channel";
            JStr (encode X channel); JStr "leave"] query in
       events_of run w
       = Beacon target
         :: (if sendBeacon target then [Called JNull leave_ok] else [])
       /\ sent_requests (events_of run w) = []
       /\ outcome run w = Normal tt.
Proof.
  intros Hsub Hbeacon run kc query; subst run kc query.
  pose proof (leave_request X channel d UserCallback w) as H.
  cbv zeta in H. cbn [rejection needs_publish_key andb] in H.
  rewrite Hsub, Hbeacon in H.
  destruct H
    as (_ & origin & c & _ & q & Hnext & Hinst & (Hevs & Hout) & _ & ->).
  exists origin. unfold outcome at 1, after at 2. rewrite Hnext.
  split; [reflexivity|]. split; [exact Hinst|].
  cbv zeta. rewrite Hevs.
  split; [by destruct (sendBeacon _)|].
  split; [by destruct (sendBeacon _)|by apply Hout].
Qed.

(** The refusing beacon of the sample: one beacon, no callback. *)
Lemma leave_takes_beacon_path_witness :
  events_of
    (perform (sample_externals (answering "[]"))
       (PerformLeave "lobby" None) UserCallback) beacon_world
  = [Beacon "http://ps10.pubnub.com/v2/presence/sub_key/sub-c-1/channel/lobby/leave?uuid=user-1"].
Proof.
  destruct (leave_takes_beacon_path (sample_externals (answering "[]"))
              "lobby" None (fun _ => false) beacon_world eq_refl eq_refl)
    as (origin & Hnext & _ & Hevs & _).
  vm_compute in Hnext. injection Hnext as <-. exact Hevs.
Defined.

(** The response handler (lines 505-511) reports errors without looking
    at the body: a transport error, or else an error carried by the
    response, is handed to the callback with [null] as result, the body
    is not parsed, and nothing is raised, whatever the body is. A
    transport error takes precedence over an error on the response. *)
Theorem errors_reported_without_parsing (X : Externals) (m : Method)
    (url : string) (t : Z) (q : Params) (w : World) :
  let err := fst (transport X m url t q) in
  let resp := snd (transport X m url t q) in
  truthy err || truthy (resp_error resp) = true ->
  _abstractedXDR X m url t q UserCallback w
  = (Normal tt,
     extend w
       [Sent m url t q;
        Called (if truthy err then err else resp_error resp) JNull]).
Proof.
  intros err resp H; subst err resp.
  rewrite abstractedXDR_run; cbv zeta.
  destruct (truthy (fst (transport X m url t q))); [reflexivity|].
  cbn [orb] in H. by rewrite H.
Qed.

(** A timeout, reported though the (empty) body would not parse. *)
Lemma errors_reported_without_parsing_witness :
  _abstractedXDR (sample_externals unreachable) GET
    "http://ps8.pubnub.com/time/0" 15000 ∅ UserCallback sample_world
  = (Normal tt,
     extend sample_world
       [Sent GET "http://ps8.pubnub.com/time/0" 15000 ∅;
        Called (JObj [("message", JStr "timeout")]) JNull])
  /\ sample_parse "" = None.
Proof.
  split; [|reflexivity].
  apply (errors_reported_without_parsing (sample_externals unreachable) GET
           "http://ps8.pubnub.com/time/0" 15000 ∅ sample_world).
  reflexivity.
Defined.

(** Publishing (lines 416-450): the mode decides the method and nothing
    else. In mode ['POST'] the request has the URL, the timeout and the
    query it has in any other mode; the message travels in the URL path
    either way. *)
Theorem publish_mode_only_sets_method (X : Externals) (channel : string)
    (msg : JsVal) (d : option Params) (mode : string) (cb : Callback)
    (w : World) :
  map (fun r => (snd (fst (fst r)), snd (fst r), snd r))
    (sent_requests
       (events_of (perform X (PerformPublish channel msg d "POST") cb) w))
  = map (fun r => (snd (fst (fst r)), snd (fst r), snd r))
      (sent_requests
         (events_of (perform X (PerformPublish channel msg d mode) cb) w))
  /\ Forall (fun r => fst (fst (fst r)) = POST)
       (sent_requests
          (events_of (perform X (PerformPublish channel msg d "POST") cb) w))
  /\ (mode <> "POST" ->
      Forall (fun r => fst (fst (fst r)) = GET)
        (sent_requests
           (events_of (perform X (PerformPublish channel msg d mode) cb) w))).
Proof.
  split; [|split].
  - unfold events_of, after; cbn [perform].
    unfold performPublish, bind, this; cbv beta iota zeta.
    destruct (missing (getSubscribeKey _)); [reflexivity|].
    destruct (missing (getPublishKey _)); [reflexivity|].
    change (String.eqb "POST" "POST") with true; cbv iota.
    match goal with
    | |- context [_postXDR X ?dd ?u ?t cb w] =>
        destruct (postXDR_trace X dd u t cb w w eq_refl)
          as (rest & Hd & Hr & _);
        destruct (xdr_trace X dd u t cb w w eq_refl)
          as (rest' & Hd' & Hr' & _)
    end.
    destruct (String.eqb mode "POST");
      rewrite ?Hd, ?Hd', ?(sent_requests_sent _ _ _ _ _ Hr),
        ?(sent_requests_sent _ _ _ _ _ Hr');
      reflexivity.
  - pose proof (request_origin_and_method_aux X
                  (PerformPublish channel msg d "POST") cb w) as H.
    eapply Forall_impl; [exact H|]. by intros r [-> _].
  - intros Hmode.
    pose proof (request_origin_and_method_aux X
                  (PerformPublish channel msg d mode) cb w) as H.
    eapply Forall_impl; [exact H|]. intros r [-> _]. cbn.
    by destruct (String.eqb_spec mode "POST").
Qed.

(** ** Paths *)

Lemma sent_urls_requests (evs : list Event) :
  sent_urls evs = map (fun r => snd (fst (fst r))) (sent_requests evs).
Proof.
  induction evs as [|[m u t q|u|e r] evs IH]; cbn; [reflexivity|..];
    unfold sent_urls, sent_requests in *; cbn; by rewrite ?IH.
Qed.

(** The time operation (lines 305-318) checks no credential: whatever
    the keychain holds, even nothing, one GET goes to [/time/0] on the
    cached standard origin, with the composed core parameters and the
    keychain's UUID and auth key where present. *)
Theorem time_needs_no_credential (X : Externals) (cb : Callback) (w : World) :
  let st := inst w in
  sent_requests (events_of (perform X FetchTime cb) w)
  = [(GET, getStandardOrigin st +:+ "/time/0",
      transactionalRequestTimeout (_config st),
      set_if_present "auth" (getAuthKey (_keychain st))
        (set_if_present "uuid" (getUUID (_keychain st))
           (prepareParams st None)))].
Proof.
  intros st; subst st.
  unfold events_of, after; cbn [perform].
  unfold fetchTime, bind, this; cbv beta iota zeta.
  match goal with
  | |- context [_xdr X ?dd ?u ?t cb w] =>
      destruct (xdr_trace X dd u t cb w w eq_refl) as (rest & Hd & Hr & _)
  end.
  rewrite Hd, (sent_requests_sent _ _ _ _ _ Hr), join_origin.
  reflexivity.
Qed.

(** Where-now and fetch-state (lines 331-333, 401-403): an absent or
    empty uuid argument stands for the keychain's own UUID; the run is
    the one the caller gets by passing that UUID. *)
Theorem uuid_defaults_to_own (X : Externals) (uuid : option string)
    (channel : string) (d : option Params) (cb : Callback) (w : World) :
  missing uuid = true ->
  perform X (FetchWhereNow uuid) cb w
  = perform X (FetchWhereNow (getUUID (_keychain (inst w)))) cb w
  /\ perform X (FetchState uuid channel d) cb w
     = perform X (FetchState (getUUID (_keychain (inst w))) channel d) cb w.
Proof.
  intros Hu; cbn [perform].
  unfold fetchWhereNow, fetchState, bind, this; cbv beta iota zeta.
  rewrite Hu.
  destruct (missing (getUUID (_keychain (inst w)))); split; reflexivity.
Qed.

(** With no uuid given, the sample instance asks about [user-1]. *)
Lemma uuid_defaults_to_own_witness :
  sent_urls
    (events_of (perform (sample_externals (answering "[]"))
                  (FetchWhereNow (Some "")) UserCallback) sample_world)
  = ["http://ps8.pubnub.com/v2/presence/sub-key/sub-c-1/uuid/user-1"].
Proof.
  unfold events_of, after.
  rewrite (proj1 (uuid_defaults_to_own (sample_externals (answering "[]"))
                    (Some "") "" None UserCallback sample_world eq_refl)).
  reflexivity.
Defined.

(** Here-now (lines 359-372): a channel, when given, is the only thing
    that reaches the path, encoded; without a channel, any channel group
    at all puts the segment [,] there, so the groups themselves never
    enter the path; with neither, the path stops at the subscribe key. *)
Theorem here_now_paths (X : Externals) (channel channelGroup : string)
    (d : option Params) (cb : Callback) (w : World) :
  missing (getSubscribeKey (_keychain (inst w))) = false ->
  let st := inst w in
  let base :=
    [JStr (getStandardOrigin st); JStr "v2"; JStr "presence"; JStr "sub-key";
     of_key (getSubscribeKey (_keychain st))] in
  sent_urls
    (events_of (perform X (FetchHereNow channel channelGroup d) cb) w)
  = [join "/"
       (base ++
        (if negb (String.eqb channel "")
         then [JStr "channel"; JStr (encode X channel)]
         else if negb (String.eqb channelGroup "")
              then [JStr "channel"; JStr ","]
              else []))%list].
Proof.
  intros Hsub st base; subst st base.
  rewrite sent_urls_requests.
  unfold events_of, after; cbn [perform].
  unfold fetchHereNow, bind, this; cbv beta iota zeta.
  rewrite Hsub. cbn [truthy].
  destruct (negb (String.eqb channel "")); cbn [negb andb];
    [rewrite andb_false_r|rewrite andb_true_r;
                          destruct (negb (String.eqb channelGroup ""))];
    cbn [app];
    match goal with
    | |- context [_xdr X ?dd ?u ?t cb w] =>
        destruct (xdr_trace X dd u t cb w w eq_refl) as (rest & Hd & Hr & _)
    end;
    rewrite Hd, (sent_requests_sent _ _ _ _ _ Hr); reflexivity.
Qed.

(** Groups alone, on the sample instance. *)
Lemma here_now_paths_witness :
  sent_urls
    (events_of (perform (sample_externals (answering "[]"))
                  (FetchHereNow "" "friends,family" None) UserCallback)
               sample_world)
  = ["http://ps8.pubnub.com/v2/presence/sub-key/sub-c-1/channel/,"].
Proof.
  apply (here_now_paths (sample_externals (answering "[]")) "" "friends,family"
           None UserCallback sample_world).
  reflexivity.
Defined.

(** The channel-group operation (lines 158-164): the group [*] is
    treated as no group at all, and the mode matters only by being
    ['remove'] or not: any two other modes give the same run. *)
Theorem channel_group_wildcard_and_mode (X : Externals)
    (channelGroup mode mode' : string) (d : option Params) (cb : Callback)
    (w : World) :
  perform X (PerformChannelGroupOperation "*" mode d) cb w
  = perform X (PerformChannelGroupOperation "" mode d) cb w
  /\ (mode <> "remove" -> mode' <> "remove" ->
      perform X (PerformChannelGroupOperation channelGroup mode d) cb w
      = perform X (PerformChannelGroupOperation channelGroup mode' d) cb w).
Proof.
  split.
  - reflexivity.
  - intros Hm Hm'. cbn [perform].
    unfold performChannelGroupOperation, bind, this; cbv beta iota zeta.
    destruct (String.eqb_spec mode "remove"); [congruence|].
    destruct (String.eqb_spec mode' "remove"); [congruence|].
    reflexivity.
Qed.

(** ** Access-control operations, whatever the environment *)

Section Silent.

Variable X : Externals.
Variable U : Unbound.














End Silent.


(** Every name supplied: the request goes out, signed, and the handler
    then fails for want of a callback. *)
Example audit_supplied_run :
  performAudit (sample_externals (answering "[]"))
    (supplied (inst sample_world) audit_globals)
    JUndefined (Some ∅) UserCallback sample_world
  = (Throw (TypeError "callback is not a function"),
     extend sample_world
       [Sent GET "http://ps8.pubnub.com/v1/auth/audit/sub-key/sub-c-1" 15000
          {["auth" := JStr "token-9"; "signature" := JStr "q-7_41_A-="]}]).
Proof. reflexivity. Qed.

Lemma base64url_safe (s : string) (c : ascii) :
  In c (list_ascii_of_string (base64url s)) ->
  c <> "+"%char /\ c <> "/"%char.
Proof.
  induction s as [|x s IH]; cbn; [tauto|].
  intros [<-|Hin]; [|by apply IH].
  destruct (Ascii.eqb_spec x "+") as [->|Hplus]; [by split|].
  destruct (Ascii.eqb_spec x "/") as [->|Hslash]; by split.
Qed.

(** The grant operation with a credential missing (lines 197-199), in any
    environment: it reports through [this._error] and through nothing
    else. No event is produced, so the caller's callback is never told,
    and the world is untouched; the call returns when the instance has an
    [_error] member and raises a [TypeError] when it has none. The
    [authKey] argument is never read. *)
Theorem grant_missing_key_is_silent (X : Externals) (U : Unbound)
    (authKey authKey' : JsVal) (data : option Params) (callback : Callback)
    (w : World) :
  missing (getSubscribeKey (_keychain (inst w)))
  || missing (getPublishKey (_keychain (inst w)))
  || missing (getSecretKey (_keychain (inst w))) = true ->
  performGrant X U authKey data callback w
  = (match this_error U with
     | Some _ => Normal tt
     | None => Throw (TypeError "this._error is not a function")
     end, w)
  /\ events_of (performGrant X U authKey data callback) w = []
  /\ performGrant X U authKey data callback w
     = performGrant X U authKey' data callback w.
Proof.
  intros Hmiss.
  assert (performGrant X U authKey data callback w
          = (match this_error U with
             | Some _ => Normal tt
             | None => Throw (TypeError "this._error is not a function")
             end, w)) as Hrun.
  { unfold performGrant, bind, this, _error; cbv beta iota zeta.
    destruct (missing (getSubscribeKey _)); [by destruct (this_error U)|].
    destruct (missing (getPublishKey _)); [by destruct (this_error U)|].
    destruct (missing (getSecretKey _)); [by destruct (this_error U)|].
    discriminate Hmiss. }
  split; [exact Hrun|]. split; [|reflexivity].
  unfold events_of, after. rewrite Hrun. cbn. apply drop_all.
Qed.

(** No key at all, and an instance that has an [_error] member. *)
Lemma grant_missing_key_is_silent_witness :
  performGrant (sample_externals (answering "[]"))
    (supplied (inst keyless_world) ∅)
    (JStr "token") (Some ∅) UserCallback keyless_world
  = (Normal tt, keyless_world).
Proof.
  apply (proj1 (grant_missing_key_is_silent (sample_externals (answering "[]"))
                  (supplied (inst keyless_world) ∅) (JStr "token")
                  (JStr "token") (Some ∅) UserCallback keyless_world
                  eq_refl)).
Defined.

(** The grant operation where it can run (lines 201-223): in an
    environment that binds [this._networking], [this._hmac_SHA256] and a
    global [auth_key], with the three keys present, one GET goes to
    [/v1/auth/grant/sub-key/<subscribe key>] on the cached standard
    origin. Its query is the composed mapping, without [auth] when
    [auth_key] is falsy, plus a [signature]: the digest of prefix and
    canonical string under the secret key, with [+] and [/] replaced, so
    the signature is as long as the digest and contains neither
    character. The canonical string is taken before the signature is
    added. *)
Theorem grant_signature_when_bound (X : Externals) (U : Unbound)
    (prep : option Params -> Params) (hmac : string -> string -> string)
    (auth_key authKey : JsVal) (data : option Params) (cb : Callback)
    (w : World) :
  this_networking_prepareParams U = Some prep ->
  this_hmac_SHA256 U = Some hmac ->
  globals U !! "auth_key" = Some auth_key ->
  missing (getSubscribeKey (_keychain (inst w))) = false ->
  missing (getPublishKey (_keychain (inst w))) = false ->
  missing (getSecretKey (_keychain (inst w))) = false ->
  let st := inst w in
  let kc := _keychain st in
  let composed :=
    if truthy auth_key then prep data else delete "auth" (prep data) in
  let digest :=
    hmac (grant_sign_input X kc composed) (to_str (of_key (getSecretKey kc))) in
  sent_requests (events_of (performGrant X U authKey data cb) w)
  = [(GET,
      getStandardOrigin st +:+ "/v1/auth/grant/sub-key/"
        +:+ render (of_key (getSubscribeKey kc)),
      transactionalRequestTimeout (_config st),
      <["signature" := JStr (base64url digest)]> composed)]
  /\ String.length (base64url digest) = String.length digest
  /\ (forall c, In c (list_ascii_of_string (base64url digest)) ->
        c <> "+"%char /\ c <> "/"%char)
  /\ (truthy auth_key = false -> composed !! "auth" = None).
Proof.
  intros Hprep Hhmac Hak Hsub Hpub Hsec st kc composed digest.
  split; [|split; [apply base64url_length|split; [apply base64url_safe|]]].
  - unfold events_of, after.
    rewrite (performGrant_supplied X U prep hmac auth_key authKey data cb w)
      by assumption.
    cbv zeta.
    match goal with
    | |- context [_xdr X ?dd ?u ?t cb w] =>
        destruct (xdr_trace X dd u t cb w w eq_refl) as (rest & Hd & Hr & _)
    end.
    rewrite Hd, (sent_requests_sent _ _ _ _ _ Hr), join_origin.
    reflexivity.
  - subst composed. intros ->. apply lookup_delete_eq.
Qed.

(** The members supplied and a global [auth_key] that is [undefined]. *)
Lemma grant_signature_when_bound_witness :
  sent_requests
    (events_of
       (performGrant (sample_externals (answering "[]"))
          (supplied (inst sample_world) {["auth_key" := JUndefined]})
          JUndefined (Some {["auth" := JStr ""; "ttl" := JNum 5]})
          UserCallback)
       sample_world)
  = [(GET, "http://ps8.pubnub.com/v1/auth/grant/sub-key/sub-c-1", 15000,
      {["ttl" := JNum 5; "signature" := JStr "q-7_34_A-="]})].
Proof.
  refine (proj1 (grant_signature_when_bound (sample_externals (answering "[]"))
                   (supplied (inst sample_world) {["auth_key" := JUndefined]})
                   (prepareParams (inst sample_world)) sample_hmac JUndefined
                   JUndefined (Some {["auth" := JStr ""; "ttl" := JNum 5]})
                   UserCallback sample_world _ _ _ _ _ _));
    reflexivity.
Defined.

(** ** The get-memberships endpoint *)

(** [prepareParams] of the get-memberships endpoint (lines 36-84 of the
    second file): [limit] is always sent. It is the caller's value
    whenever the caller gave one other than [undefined] or [null], zero
    included, and 100 otherwise, also when no parameter object is passed
    at all. *)
Theorem memberships_limit (params : option GetMemberships.GetMembershipsParams) :
  let given := GetMemberships.field GetMemberships.limit params in
  GetMemberships.prepareParams params !! "limit"
  = Some (GetMemberships.nullish given (JNum 100))
  /\ (given <> JUndefined -> given <> JNull ->
      GetMemberships.prepareParams params !! "limit" = Some given)
  /\ GetMemberships.prepareParams None !! "limit" = Some (JNum 100).
Proof.
  intros given.
  assert (GetMemberships.prepareParams params !! "limit"
          = Some (GetMemberships.nullish given (JNum 100))) as H.
  { unfold GetMemberships.prepareParams; cbv zeta.
    destruct (params ≫= GetMemberships.sort);
      [rewrite lookup_insert_ne by discriminate|];
      apply lookup_insert_eq. }
  split; [exact H|]. split; [|reflexivity].
  intros Hu Hn. rewrite H. by destruct given.
Qed.

(** The query of the get-memberships endpoint (lines 36-84 of the second
    file), key by key. [include] is sent exactly when an include object is
    given, even one with no flag set (then as the empty list), and lists
    [custom], [channel.custom], [channel] in that order; [count] needs an
    include object with a truthy [totalCount]; [start], [end] and [filter]
    are sent only for truthy values, so an empty filter string is dropped;
    [sort] is sent exactly when a sort object is given, one entry per key,
    [key:asc] or [key:desc] for those two directions and the bare key for
    any other value; and no other key is ever sent. The include list
    holds [custom] exactly when [customFields] is truthy, [channel.custom]
    exactly when [customChannelFields] is, and [channel] exactly when
    [channelFields] is. *)
Theorem memberships_query (params : option GetMemberships.GetMembershipsParams) :
  let q := GetMemberships.prepareParams params in
  let inc := params ≫= GetMemberships.include in
  let pg := params ≫= GetMemberships.page in
  let total := from_option GetMemberships.totalCount JUndefined inc in
  let next := from_option GetMemberships.next JUndefined pg in
  let prev := from_option GetMemberships.prev JUndefined pg in
  let flt := GetMemberships.field GetMemberships.filter params in
  q !! "include"
  = (fun i => JArr (GetMemberships.include_flags i)) <$> inc
  /\ q !! "count" = (if truthy total then Some total else None)
  /\ q !! "start" = (if truthy next then Some next else None)
  /\ q !! "end" = (if truthy prev then Some prev else None)
  /\ q !! "filter" = (if truthy flt then Some flt else None)
  /\ q !! "sort"
     = (fun entries => JArr (map GetMemberships.sort_entry entries))
         <$> (params ≫= GetMemberships.sort)
  /\ (forall k,
        ~ In k ["include"; "count"; "start"; "end"; "filter"; "limit"; "sort"]
        -> q !! k = None)
  /\ (forall inc',
        sublist (GetMemberships.include_flags inc')
          [JStr "custom"; JStr "channel.custom"; JStr "channel"]
        /\ (In (JStr "custom") (GetMemberships.include_flags inc')
            <-> truthy (GetMemberships.customFields inc') = true)
        /\ (In (JStr "channel.custom") (GetMemberships.include_flags inc')
            <-> truthy (GetMemberships.customChannelFields inc') = true)
        /\ (In (JStr "channel") (GetMemberships.include_flags inc')
            <-> truthy (GetMemberships.channelFields inc') = true))
  /\ (forall key dir,
        GetMemberships.sort_entry (key, JStr dir)
        = JStr (if String.eqb dir "asc" || String.eqb dir "desc"
                then key +:+ ":" +:+ dir else key))
  /\ (forall key v,
        (forall dir, v <> JStr dir) ->
        GetMemberships.sort_entry (key, v) = JStr key).
Proof.
  intros q inc pg total next prev flt.
  subst q total next prev flt inc pg.
  unfold GetMemberships.prepareParams; cbv zeta.
  set (inc := params ≫= GetMemberships.include).
  set (pg := params ≫= GetMemberships.page).
  set (srt := params ≫= GetMemberships.sort).
  repeat split.
  all: try (destruct srt, inc as [i|], pg as [p|]; cbn [from_option fmap option_fmap option_map];
       repeat match goal with
         | |- context [if truthy ?v then _ else _] => destruct (truthy v)
         end;
       repeat first
         [ rewrite lookup_insert_eq
         | rewrite lookup_insert_ne by discriminate
         | rewrite lookup_empty ];
       reflexivity).
  all: try (destruct inc' as [c cc ch t];
    unfold GetMemberships.include_flags; cbn;
    destruct (truthy c), (truthy cc), (truthy ch); cbn;
    first
      [ solve [repeat first [apply sublist_nil | apply sublist_skip
                            | apply sublist_cons]]
      | solve [let H := fresh in
               intros H; repeat destruct H as [H|H];
               first [reflexivity | discriminate H | contradiction]]
      | solve [let H := fresh in
               intros H; first [discriminate H | cbn; tauto]] ]).
  - intros k Hk.
    assert (forall name, In name ["include"; "count"; "start"; "end";
                                  "filter"; "limit"; "sort"] -> name <> k)
      as Hne by (intros name Hin ->; contradiction).
    destruct srt, inc as [i|], pg as [p|];
      repeat match goal with
        | |- context [if truthy ?v then _ else _] => destruct (truthy v)
        end;
      repeat (rewrite lookup_insert_ne by (apply Hne; cbn; tauto));
      apply lookup_empty.
  - intros key dir. unfold GetMemberships.sort_entry; cbn [fst snd].
    repeat (try reflexivity;
            destruct dir as [|[[] [] [] [] [] [] [] []] dir];
            try reflexivity).
  - intros key v Hv. destruct v as [| | | |dir| |]; try reflexivity.
    by destruct (Hv dir).
Qed.

(** The sample caller: no [channel.custom] flag, no [end], no [filter],
    and the limit 0 kept. *)
Example memberships_sample_query :
  GetMemberships.validateParams (Some GetMemberships.sample_params) = None
  /\ GetMemberships.validateParams None = Some "UUID cannot be empty"
  /\ GetMemberships.getURL (JStr "sub-c-1") GetMemberships.sample_params
     = "/v2/objects/sub-c-1/uuids/user/1/channels"
  /\ GetMemberships.prepareParams (Some GetMemberships.sample_params)
     = {["include" := JArr [JStr "custom"; JStr "channel"];
         "count" := JBool true;
         "start" := JStr "Mg";
         "limit" := JNum 0;
         "sort" := JArr [JStr "updated:desc"; JStr "channel.name"]]}
  /\ GetMemberships.prepareParams None = {["limit" := JNum 100]}.
Proof. repeat split; vm_compute; reflexivity. Qed.
